(** * Identity verification and permission management

    A shallow embedding of the three classes of [encapsulation hw]:
    [UserIdentity] (user_identity.py), [AccountAccess] (account_access.py)
    and [SecureUser] (secure_user.py), followed by the properties of the
    specification that concern them.

    Python values are modelled as follows.
    - [str] is [string]; its characters are the code points 0..255.  In that
      range [\d] of the [re] module is exactly [0-9].  On a [str] pattern
      [\d] also matches the decimal digits of other scripts; strings with
      such characters are outside the model, and every statement about the
      validators below is about strings of code points 0..255.
    - A method is a computation in the monad [M]: it threads the object it is
      called on together with the wall clock, and either returns a value or
      raises an exception.  State changes made before a [raise] survive it,
      as they do in Python.
    - [datetime.now().isoformat()] reads an arbitrary clock.
    - Module [Store] gives the lists handed out by the accessors an address
      in a store of objects, so that aliasing between the caller's list and
      the internal one can be stated. *)

From Stdlib Require Import Ascii String DecimalString.
From stdpp Require Import gmap strings list.

Set Warnings "-register-all".

(** ** Python runtime *)

Inductive exn : Type :=
| ValueError (msg : string).

Inductive outcome (A : Type) : Type :=
| Return (a : A)
| Raise (e : exn).
Arguments Return {A} a.
Arguments Raise {A} e.

(** The wall clock: the [n]-th call of [datetime.now().isoformat()] yields
    [readings n]. *)
Record clock : Type := Clock { readings : nat → string; ticks : nat }.

Definition M (Σ A : Type) : Type := Σ → outcome A * Σ.

Definition ret {Σ A} (a : A) : M Σ A := λ σ, (Return a, σ).

Definition bind {Σ A B} (m : M Σ A) (k : A → M Σ B) : M Σ B :=
  λ σ, match m σ with
       | (Return a, σ') => k a σ'
       | (Raise e, σ') => (Raise e, σ')
       end.

Definition raise {Σ A} (e : exn) : M Σ A := λ σ, (Raise e, σ).

(** [try: body except ValueError as e: handler e] *)
Definition try_except {Σ A} (body : M Σ A) (handler : exn → M Σ A) : M Σ A :=
  λ σ, match body σ with
       | (Return a, σ') => (Return a, σ')
       | (Raise (ValueError msg), σ') => handler (ValueError msg) σ'
       end.

Declare Scope py_scope.
Delimit Scope py_scope with py.
Notation "x <- m ;; k" := (bind m (λ x, k))
  (at level 100, m at next level, right associativity) : py_scope.
Notation "m ;; k" := (bind m (λ _, k))
  (at level 100, right associativity) : py_scope.
Open Scope py_scope.

(** Attribute access on [self]; the state is the object and the clock. *)
Definition gets {O A} (f : O → A) : M (O * clock) A := λ σ, (Return (f σ.1), σ).
Definition modify {O} (f : O → O) : M (O * clock) unit :=
  λ σ, (Return tt, (f σ.1, σ.2)).

(** [datetime.now().isoformat()] *)
Definition isoformat_now {O} : M (O * clock) string :=
  λ σ, (Return (readings σ.2 (ticks σ.2)),
        (σ.1, Clock (readings σ.2) (S (ticks σ.2)))).

(** A call of a method of an attribute of [self]. *)
Definition on_attr {O P A} (get : O → P) (set : P → O → O)
    (m : M (P * clock) A) : M (O * clock) A :=
  λ σ, match m (get σ.1, σ.2) with
       | (r, (p, c)) => (r, (set p σ.1, c))
       end.

(** [Cls(args)]: run the body of [__init__] on the new object [blank]; the
    object exists for the caller only if the body returns. *)
Definition construct {O} (blank : O) (init : M (O * clock) unit) : M clock O :=
  λ c, match init (blank, c) with
       | (Return _, (o, c')) => (Return o, c')
       | (Raise e, (_, c')) => (Raise e, c')
       end.

(** [str(x)] inside an f-string. *)
Definition str_of_opt (o : option string) : string := default "None" o.
Definition str_of_nat (n : nat) : string := NilZero.string_of_uint (Nat.to_uint n).
Definition str_of_exn (e : exn) : string := match e with ValueError msg => msg end.

(** [list.remove(x)]: drops the first occurrence, raises if there is none. *)
Fixpoint remove_first (x : string) (l : list string) : option (list string) :=
  match l with
  | [] => None
  | y :: l' => if bool_decide (x = y) then Some l'
               else cons y <$> remove_first x l'
  end.

Definition list_remove {Σ} (x : string) (l : list string) : M Σ (list string) :=
  match remove_first x l with
  | Some l' => ret l'
  | None => raise (ValueError "list.remove(x): x not in list")
  end.

(** ** The fragment of [re] that the validators use *)

Module re.

(** A pattern is a sequence of nodes.  Every repetition in the source is
    over a character class, so [Rep cls lo hi] is [[cls]{lo,hi}] and
    [hi = None] means no upper bound ([+] is [{1,}]). *)
Inductive node : Type :=
| Bol                                  (* ^ *)
| Eol                                  (* $ *)
| Lit (c : ascii)
| Rep (cls : ascii → bool) (lo : nat) (hi : option nat).

Definition pattern : Type := list node.

Definition LF : ascii := "010"%char.

(** [$] without MULTILINE: at the end of the string, or just before a
    newline that is the last character. *)
Definition at_eol (s : string) : bool :=
  match s with
  | EmptyString => true
  | String c EmptyString => Ascii.eqb c LF
  | _ => false
  end.

Definition may_take (hi : option nat) : bool :=
  match hi with Some 0 => false | _ => true end.

(** [n] repetitions respect the upper bound [hi]. *)
Definition within (hi : option nat) (n : nat) : Prop :=
  match hi with
  | Some h => n ≤ h
  | None => True
  end.

(** Greedy repetition with backtracking: the longer match is tried first. *)
Fixpoint rep (cls : ascii → bool) (lo : nat) (hi : option nat)
    (k : nat → string → bool) (pos : nat) (s : string) : bool :=
  match s with
  | String c s' =>
      cls c && may_take hi && rep cls (pred lo) (pred <$> hi) k (S pos) s'
  | EmptyString => false
  end
  || (if lo is 0 then k pos s else false).

Fixpoint run (p : pattern) (pos : nat) (s : string) : bool :=
  match p with
  | [] => true
  | Bol :: p' => (if pos is 0 then true else false) && run p' pos s
  | Eol :: p' => at_eol s && run p' pos s
  | Lit c :: p' =>
      match s with
      | String c' s' => Ascii.eqb c c' && run p' (S pos) s'
      | EmptyString => false
      end
  | Rep cls lo hi :: p' => rep cls lo hi (run p') pos s
  end.

(** [bool(re.match(p, s))]: is there a match starting at position 0? *)
Definition match_ (p : pattern) (s : string) : bool := run p 0 s.

Definition range (lo hi c : ascii) : bool :=
  (nat_of_ascii lo <=? nat_of_ascii c) && (nat_of_ascii c <=? nat_of_ascii hi).
Definition one_of (cs : list ascii) (c : ascii) : bool :=
  existsb (Ascii.eqb c) cs.

(** [\d] on the code points 0..255, where the only decimal digits are 0-9. *)
Definition digit (c : ascii) : bool := range "0" "9" c.
Definition alpha (c : ascii) : bool := range "a" "z" c || range "A" "Z" c.
Definition alnum (c : ascii) : bool := alpha c || digit c.

End re.

(** ** user_identity.py *)

Module UserIdentity.

Record entry : Type := Entry {
  timestamp : string;
  action : string;
  description : string;
  status : string
}.

Record t : Type := Make {
  username : string;
  _email : option string;
  __phone_number : option string;
  __verification_status : string;
  __state_history : list entry
}.

Definition with_email (e : option string) (u : t) : t :=
  Make (username u) e (__phone_number u) (__verification_status u) (__state_history u).
Definition with_phone_number (p : option string) (u : t) : t :=
  Make (username u) (_email u) p (__verification_status u) (__state_history u).
Definition with_verification_status (s : string) (u : t) : t :=
  Make (username u) (_email u) (__phone_number u) s (__state_history u).
Definition with_state_history (h : list entry) (u : t) : t :=
  Make (username u) (_email u) (__phone_number u) (__verification_status u) h.

(** [r'^[a-zA-Z0-9._%+-]+@[a-zA-Z0-9.-]+\.[a-zA-Z]{2,}$'] *)
Definition local_char (c : ascii) : bool :=
  re.alnum c || re.one_of ["."; "_"; "%"; "+"; "-"]%char c.
Definition domain_char (c : ascii) : bool :=
  re.alnum c || re.one_of ["."; "-"]%char c.
Definition email_pattern : re.pattern :=
  [re.Bol; re.Rep local_char 1 None; re.Lit "@";
   re.Rep domain_char 1 None; re.Lit "."; re.Rep re.alpha 2 None; re.Eol].

(** [r'^\+\d{1,3}-\d{2,3}-\d{3,4}-\d{4,5}$'] *)
Definition phone_pattern : re.pattern :=
  [re.Bol; re.Lit "+"; re.Rep re.digit 1 (Some 3); re.Lit "-";
   re.Rep re.digit 2 (Some 3); re.Lit "-"; re.Rep re.digit 3 (Some 4);
   re.Lit "-"; re.Rep re.digit 4 (Some 5); re.Eol].

Definition __validate_email (email : string) : bool :=
  re.match_ email_pattern email.

Definition __validate_phone (phone : string) : bool :=
  re.match_ phone_pattern phone.

Definition __log_state_change (action description : string) : M (t * clock) unit :=
  now <- isoformat_now ;;
  status <- gets __verification_status ;;
  modify (λ u, with_state_history
                 (__state_history u ++ [Entry now action description status]) u).

Definition get_email : M (t * clock) (option string) := gets _email.

Definition set_email (new_email : string) : M (t * clock) unit :=
  if __validate_email new_email then
    old_email <- gets _email ;;
    modify (with_email (Some new_email)) ;;
    __log_state_change "EMAIL_CHANGED"
      ("Email changed from " +:+ str_of_opt old_email +:+ " to " +:+ new_email)
  else
    raise (ValueError ("Invalid email format: " +:+ new_email)).

Definition get_phone_number : M (t * clock) (option string) := gets __phone_number.

Definition __set_phone_number (phone : string) : M (t * clock) unit :=
  if __validate_phone phone then
    modify (with_phone_number (Some phone)) ;;
    __log_state_change "PHONE_SET" ("Phone number set to " +:+ phone)
  else
    raise (ValueError ("Invalid phone format: " +:+ phone)).

Definition get_verification_status : M (t * clock) string :=
  gets __verification_status.

Definition request_verification : M (t * clock) bool :=
  status <- gets __verification_status ;;
  if String.eqb status "UNVERIFIED" then
    modify (with_verification_status "PENDING") ;;
    __log_state_change "VERIFICATION_REQUESTED"
      "Status changed from UNVERIFIED to PENDING" ;;
    ret true
  else
    __log_state_change "VERIFICATION_REQUEST_DENIED"
      ("Cannot request verification from " +:+ status +:+ " state") ;;
    ret false.

Definition verify : M (t * clock) bool :=
  status <- gets __verification_status ;;
  if String.eqb status "PENDING" then
    modify (with_verification_status "VERIFIED") ;;
    __log_state_change "VERIFIED" "Status changed from PENDING to VERIFIED" ;;
    ret true
  else
    __log_state_change "VERIFICATION_DENIED"
      ("Cannot verify from " +:+ status +:+ " state") ;;
    ret false.

Definition get_state_history : M (t * clock) (list entry) := gets __state_history.

Definition __init__ (username email phone_number : string) : M clock t :=
  construct (Make username None None "UNVERIFIED" [])
    (set_email email ;;
     __set_phone_number phone_number ;;
     __log_state_change "INITIALIZED" "User identity created").

End UserIdentity.

(** ** account_access.py *)

Module AccountAccess.

Record entry : Type := Entry {
  timestamp : string;
  action : string;
  description : string;
  current_permissions : list string
}.

Record t : Type := Make {
  __permissions : list string;
  __permission_history : list entry
}.

Definition RESTRICTED_PERMISSIONS : gset string := {[ "TRANSFER"; "WITHDRAW" ]}.
Definition ALLOWED_PERMISSIONS : gset string :=
  {[ "VIEW_BALANCE"; "VIEW_TRANSACTIONS"; "TRANSFER";
     "WITHDRAW"; "DEPOSIT"; "UPDATE_PROFILE" ]}.

Definition with_permissions (l : list string) (a : t) : t :=
  Make l (__permission_history a).
Definition with_permission_history (h : list entry) (a : t) : t :=
  Make (__permissions a) h.

Definition __log_permission_change (action description : string) : M (t * clock) unit :=
  now <- isoformat_now ;;
  permissions <- gets __permissions ;;
  modify (λ a, with_permission_history
                 (__permission_history a ++ [Entry now action description permissions]) a).

Definition get_permissions : M (t * clock) (list string) := gets __permissions.

Definition add_permission (permission : string) (is_verified : bool)
    : M (t * clock) (bool * string) :=
  if negb (bool_decide (permission ∈ ALLOWED_PERMISSIONS)) then
    let message := "Invalid permission: " +:+ permission in
    __log_permission_change "ADD_FAILED" message ;;
    ret (false, message)
  else
    permissions <- gets __permissions ;;
    if bool_decide (permission ∈ permissions) then
      let message := "Permission already granted: " +:+ permission in
      __log_permission_change "ADD_DUPLICATE" message ;;
      ret (false, message)
    else if bool_decide (permission ∈ RESTRICTED_PERMISSIONS) && negb is_verified then
      let message := "Cannot grant '" +:+ permission +:+ "' - user must be VERIFIED" in
      __log_permission_change "ADD_DENIED" message ;;
      ret (false, message)
    else
      modify (λ a, with_permissions (__permissions a ++ [permission]) a) ;;
      let message := "Permission granted: " +:+ permission in
      __log_permission_change "ADD_SUCCESS" message ;;
      ret (true, message).

Definition remove_permission (permission : string) : M (t * clock) (bool * string) :=
  permissions <- gets __permissions ;;
  if bool_decide (permission ∈ permissions) then
    permissions' <- list_remove permission permissions ;;
    modify (with_permissions permissions') ;;
    let message := "Permission revoked: " +:+ permission in
    __log_permission_change "REMOVE_SUCCESS" message ;;
    ret (true, message)
  else
    let message := "Permission not found: " +:+ permission in
    __log_permission_change "REMOVE_FAILED" message ;;
    ret (false, message).

Definition has_permission (permission : string) : M (t * clock) bool :=
  permissions <- gets __permissions ;;
  ret (bool_decide (permission ∈ permissions)).

Definition clear_all_permissions : M (t * clock) nat :=
  count <- gets (λ a, length (__permissions a)) ;;
  modify (with_permissions []) ;;
  __log_permission_change "CLEAR_ALL" ("Cleared " +:+ str_of_nat count +:+ " permissions") ;;
  ret count.

Definition get_permission_history : M (t * clock) (list entry) :=
  gets __permission_history.

Definition __init__ : M clock t :=
  construct (Make [] []) (__log_permission_change "INITIALIZED" "Account access created").

End AccountAccess.


(** ** secure_user.py *)

Module SecureUser.

(** The values of a [details] dictionary. *)
Inductive detail : Type :=
| DStr (s : string)
| DBool (b : bool).

Record entry : Type := Entry {
  timestamp : string;
  action : string;
  description : string;
  success : bool;
  user : string;
  verification_status : string;
  details : option (list (string * detail))   (* key absent: [None] *)
}.

Record t : Type := Make {
  _identity : UserIdentity.t;
  __access : AccountAccess.t;
  __audit_log : list entry
}.

Definition with_identity (i : UserIdentity.t) (u : t) : t :=
  Make i (__access u) (__audit_log u).
Definition with_access (a : AccountAccess.t) (u : t) : t :=
  Make (_identity u) a (__audit_log u).
Definition with_audit_log (l : list entry) (u : t) : t :=
  Make (_identity u) (__access u) l.

Definition identity {A} : M (UserIdentity.t * clock) A → M (t * clock) A :=
  on_attr _identity with_identity.
Definition access {A} : M (AccountAccess.t * clock) A → M (t * clock) A :=
  on_attr __access with_access.

(** [if details:] holds for a dictionary that is not empty. *)
Definition truthy (details : option (list (string * detail))) : bool :=
  match details with
  | Some (_ :: _) => true
  | _ => false
  end.

Definition __log_action (action description : string) (success : bool)
    (details : option (list (string * detail))) : M (t * clock) unit :=
  now <- isoformat_now ;;
  username <- gets (λ u, UserIdentity.username (_identity u)) ;;
  status <- identity UserIdentity.get_verification_status ;;
  let log_entry :=
    Entry now action description success username status
          (if truthy details then details else None) in
  modify (λ u, with_audit_log (__audit_log u ++ [log_entry]) u).

Definition grant_permission (permission : string) : M (t * clock) (bool * string) :=
  status <- identity UserIdentity.get_verification_status ;;
  let is_verified := String.eqb status "VERIFIED" in
  r <- access (AccountAccess.add_permission permission is_verified) ;;
  let '(success, message) := r in
  __log_action "GRANT_PERMISSION"
    ("Attempted to grant '" +:+ permission +:+ "': " +:+ message)
    success
    (Some [("permission", DStr permission); ("verified", DBool is_verified)]) ;;
  ret (success, message).

Definition revoke_permission (permission : string) : M (t * clock) (bool * string) :=
  r <- access (AccountAccess.remove_permission permission) ;;
  let '(success, message) := r in
  __log_action "REVOKE_PERMISSION"
    ("Attempted to revoke '" +:+ permission +:+ "': " +:+ message)
    success
    (Some [("permission", DStr permission)]) ;;
  ret (success, message).

Definition has_permission (permission : string) : M (t * clock) bool :=
  access (AccountAccess.has_permission permission).

Definition get_permissions : M (t * clock) (list string) :=
  access AccountAccess.get_permissions.

Definition request_verification : M (t * clock) bool :=
  success <- identity UserIdentity.request_verification ;;
  __log_action "REQUEST_VERIFICATION"
    ("Verification request: " +:+ (if success then "successful" else "failed"))
    success None ;;
  ret success.

Definition verify_identity : M (t * clock) bool :=
  success <- identity UserIdentity.verify ;;
  __log_action "VERIFY_IDENTITY"
    ("Identity verification: " +:+ (if success then "successful" else "failed"))
    success None ;;
  ret success.

(** The dictionary returned by [identity_status]. *)
Record status_dict : Type := StatusDict {
  sd_username : string;
  sd_email : option string;
  sd_phone : option string;
  sd_verification_status : string;
  sd_permissions : list string
}.

Definition identity_status : M (t * clock) status_dict :=
  username <- gets (λ u, UserIdentity.username (_identity u)) ;;
  email <- identity UserIdentity.get_email ;;
  phone <- identity UserIdentity.get_phone_number ;;
  status <- identity UserIdentity.get_verification_status ;;
  permissions <- access AccountAccess.get_permissions ;;
  ret (StatusDict username email phone status permissions).

Definition update_email (new_email : string) : M (t * clock) (bool * string) :=
  try_except
    (identity (UserIdentity.set_email new_email) ;;
     __log_action "UPDATE_EMAIL" ("Email updated to " +:+ new_email) true None ;;
     ret (true, "Email updated successfully"))
    (λ e,
     __log_action "UPDATE_EMAIL" ("Failed to update email: " +:+ str_of_exn e) false None ;;
     ret (false, str_of_exn e)).

Definition get_audit_log : M (t * clock) (list entry) := gets __audit_log.

Definition __init__ (username email phone_number : string) : M clock t :=
  bind (UserIdentity.__init__ username email phone_number) (λ identity,
  bind AccountAccess.__init__ (λ access,
  construct (Make identity access [])
    (__log_action "USER_CREATED" ("SecureUser created for " +:+ username) true None))).

(** The dictionary returned by [get_full_report]. *)
Record report : Type := Report {
  rp_identity : status_dict;
  rp_audit_log_entries : nat;
  rp_last_action : option entry               (* [None] while the log is empty *)
}.

Definition get_full_report : M (t * clock) report :=
  status <- identity_status ;;
  log <- gets __audit_log ;;
  ret (Report status (length log)
              (match log with
               | [] => None
               | _ :: _ => last log
               end)).

End SecureUser.

(** ** The attribute shapes as the specification words them

    [Shape.phone] and [Shape.email] follow the wording of the specification,
    not the code; they are what the validators of [UserIdentity] are
    compared with. *)

Module Shape.

(** [s.split(sep)] *)
Fixpoint split_on (sep : ascii) (s : string) : list string :=
  match s with
  | EmptyString => [EmptyString]
  | String c s' =>
      if Ascii.eqb c sep then EmptyString :: split_on sep s'
      else match split_on sep s' with
           | w :: ws => String c w :: ws
           | [] => [String c EmptyString]
           end
  end.

(** [sep.join(ws)] *)
Fixpoint join (sep : ascii) (ws : list string) : string :=
  match ws with
  | [] => EmptyString
  | [w] => w
  | w :: ws' => w +:+ String sep (join sep ws')
  end.

(** [s.rpartition(sep)] when [sep] occurs: the text before and after the
    last occurrence. *)
Fixpoint rsplit (sep : ascii) (s : string) : option (string * string) :=
  match s with
  | EmptyString => None
  | String c s' =>
      match rsplit sep s' with
      | Some (a, b) => Some (String c a, b)
      | None => if Ascii.eqb c sep then Some (EmptyString, s') else None
      end
  end.

Fixpoint all (cls : ascii → bool) (s : string) : bool :=
  match s with
  | EmptyString => true
  | String c s' => cls c && all cls s'
  end.

(** Between [lo] and [hi] characters, all of them digits. *)
Definition digits (lo hi : nat) (s : string) : bool :=
  all re.digit s && (lo <=? String.length s) && (String.length s <=? hi).

(** [+<1-3 digits>-<2-3 digits>-<3-4 digits>-<4-5 digits>] *)
Definition phone (s : string) : bool :=
  match s with
  | String c groups =>
      Ascii.eqb c "+" &&
      match split_on "-" groups with
      | [g1; g2; g3; g4] => digits 1 3 g1 && digits 2 3 g2 && digits 3 4 g3 && digits 4 5 g4
      | _ => false
      end
  | EmptyString => false
  end.

(** [local-part@domain.tld]: alphanumerics and [._%+-] in the local part, a
    dotted domain, a suffix of two or more letters.  The specification does
    not say which characters a domain has; they are taken to be the ones the
    code allows there, so that the two can only differ in the shape. *)
Definition email (s : string) : bool :=
  match split_on "@" s with
  | [local; host] =>
      match rsplit "." host with
      | Some (domain, tld) =>
          (1 <=? String.length local) && all UserIdentity.local_char local
          && (1 <=? String.length domain) && all UserIdentity.domain_char domain
          && (2 <=? String.length tld) && all re.alpha tld
      | None => false
      end
  | _ => false
  end.

(** [s] without the newline at its end, if there is one. *)
Fixpoint chomp (s : string) : string :=
  match s with
  | EmptyString => EmptyString
  | String c EmptyString => if Ascii.eqb c re.LF then EmptyString else s
  | String c s' => String c (chomp s')
  end.

End Shape.

(** ** Object identity: the lists handed to the caller

    [list.copy()] makes a new list object whose items are the items of the
    old one.  To state what a caller can and cannot reach through a returned
    list, the two lists of a [SecureUser] and the dictionaries they hold are
    placed in a store of objects. *)

Module Store.

Abbreviation ref := nat.

Inductive value : Type :=
| VNone
| VBool (b : bool)
| VStr (s : string)
| VRef (r : ref).

Inductive object : Type :=
| List (items : list value)
| Dict (fields : list (string * value)).

(** The object at address [r] is the [r]-th; objects are never freed. *)
Abbreviation store := (list object).

Definition alloc (o : object) (h : store) : ref * store := (length h, h ++ [o]).

(** [l.copy()] *)
Definition list_copy (l : ref) (h : store) : option (ref * store) :=
  match h !! l with
  | Some (List items) => Some (alloc (List items) h)
  | _ => None
  end.

(** A [SecureUser] whose lists live in the store.  Strings are immutable and
    stay by value. *)
Record secure_user : Type := SecureUserAt {
  identity : UserIdentity.t;
  permissions_at : ref;        (* self.__access.__permissions *)
  audit_log_at : ref           (* self.__audit_log *)
}.

Definition get_permissions (self : secure_user) (h : store) : option (ref * store) :=
  list_copy (permissions_at self) h.

Definition get_audit_log (self : secure_user) (h : store) : option (ref * store) :=
  list_copy (audit_log_at self) h.

Definition value_of_opt (o : option string) : value := from_option VStr VNone o.

Definition identity_status (self : secure_user) (h : store) : option (ref * store) :=
  match get_permissions self h with
  | Some (permissions, h') =>
      Some (alloc (Dict [("username", VStr (UserIdentity.username (identity self)));
                         ("email", value_of_opt (UserIdentity._email (identity self)));
                         ("phone", value_of_opt (UserIdentity.__phone_number (identity self)));
                         ("verification_status",
                          VStr (UserIdentity.__verification_status (identity self)));
                         ("permissions", VRef permissions)]) h')
  | None => None
  end.

(** *** Placing a [SecureUser.t] in the store *)

Definition value_of_detail (d : SecureUser.detail) : value :=
  match d with
  | SecureUser.DStr s => VStr s
  | SecureUser.DBool b => VBool b
  end.

Definition alloc_details (details : option (list (string * SecureUser.detail)))
    (h : store) : list (string * value) * store :=
  match details with
  | Some kvs =>
      let '(r, h') := alloc (Dict (prod_map id value_of_detail <$> kvs)) h in
      ([("details", VRef r)], h')
  | None => ([], h)
  end.

Definition alloc_entry (e : SecureUser.entry) (h : store) : ref * store :=
  let '(details, h') := alloc_details (SecureUser.details e) h in
  alloc (Dict ([("timestamp", VStr (SecureUser.timestamp e));
                ("action", VStr (SecureUser.action e));
                ("description", VStr (SecureUser.description e));
                ("success", VBool (SecureUser.success e));
                ("user", VStr (SecureUser.user e));
                ("verification_status", VStr (SecureUser.verification_status e))]
               ++ details)) h'.

Fixpoint alloc_entries (es : list SecureUser.entry) (h : store) : list value * store :=
  match es with
  | [] => ([], h)
  | e :: es' =>
      let '(r, h') := alloc_entry e h in
      let '(vs, h'') := alloc_entries es' h' in
      (VRef r :: vs, h'')
  end.

Definition place (u : SecureUser.t) (h : store) : secure_user * store :=
  let '(p, h1) :=
    alloc (List (VStr <$> AccountAccess.__permissions (SecureUser.__access u))) h in
  let '(es, h2) := alloc_entries (SecureUser.__audit_log u) h1 in
  let '(a, h3) := alloc (List es) h2 in
  (SecureUserAt (SecureUser._identity u) p a, h3).

(** *** What the caller does with a returned list *)

(** [d[key] = v]: a key that is there keeps its place, a new key goes last. *)
Fixpoint dict_set (key : string) (v : value) (fields : list (string * value))
    : list (string * value) :=
  match fields with
  | [] => [(key, v)]
  | (k, x) :: fields' =>
      if String.eqb k key then (k, v) :: fields'
      else (k, x) :: dict_set key v fields'
  end.

(** [l[i][key] = v].  An index out of range raises IndexError and an item
    that is no dictionary raises TypeError; both leave the store as it is. *)
Definition set_item_key (l : ref) (i : nat) (key : string) (v : value) (h : store) : store :=
  match h !! l with
  | Some (List items) =>
      match items !! i with
      | Some (VRef d) =>
          match h !! d with
          | Some (Dict fields) => <[d := Dict (dict_set key v fields)]> h
          | _ => h
          end
      | _ => h
      end
  | _ => h
  end.

Inductive mutation : Type :=
| Update (f : list value → list value)  (* append, pop, remove, sort, clear, l[i] = v, del l[i] *)
| Create (o : object)                   (* a new object of the caller's own *)
| SetItemKey (i : nat) (key : string) (v : value).      (* l[i][key] = v *)

Definition mutate (l : ref) (m : mutation) (h : store) : store :=
  match m with
  | Update f =>
      match h !! l with
      | Some (List items) => <[l := List (f items)]> h
      | _ => h
      end
  | Create o => (alloc o h).2
  | SetItemKey i key v => set_item_key l i key v h
  end.

Definition mutate_all (l : ref) (ms : list mutation) (h : store) : store :=
  foldl (λ h m, mutate l m h) h ms.

(** A change of the list object itself, not of an item of it. *)
Definition list_level (m : mutation) : bool :=
  match m with
  | SetItemKey _ _ _ => false
  | _ => true
  end.

Definition is_str (v : value) : bool :=
  match v with
  | VStr _ => true
  | _ => false
  end.

(** A list of strings. *)
Definition is_str_list (h : store) (l : ref) : bool :=
  match h !! l with
  | Some (List items) => forallb is_str items
  | _ => false
  end.

(** *** The value a reference stands for *)

Inductive pyval : Type :=
| PNone
| PBool (b : bool)
| PStr (s : string)
| PList (items : list pyval)
| PDict (fields : list (string * pyval))
| PUnknown.

Fixpoint deref (fuel : nat) (h : store) (v : value) : pyval :=
  match v with
  | VNone => PNone
  | VBool b => PBool b
  | VStr s => PStr s
  | VRef r =>
      match fuel with
      | 0 => PUnknown
      | S fuel' =>
          match h !! r with
          | Some (List items) => PList (deref fuel' h <$> items)
          | Some (Dict fields) => PDict (prod_map id (deref fuel' h) <$> fields)
          | None => PUnknown
          end
      end
  end.

(** No reference of the store leaves it. *)
Definition value_closed (n : nat) (v : value) : bool :=
  match v with
  | VRef r => bool_decide (r < n)
  | _ => true
  end.

Definition object_closed (n : nat) (o : object) : bool :=
  match o with
  | List items => forallb (value_closed n) items
  | Dict fields => forallb (λ kv, value_closed n kv.2) fields
  end.

Definition closed (h : store) : bool := forallb (object_closed (length h)) h.

(** [d[key]] *)
Fixpoint lookup_key (key : string) (fields : list (string * value)) : option value :=
  match fields with
  | [] => None
  | (k, v) :: fields' => if String.eqb k key then Some v else lookup_key key fields'
  end.

Definition getitem (h : store) (d : ref) (key : string) : option value :=
  match h !! d with
  | Some (Dict fields) => lookup_key key fields
  | _ => None
  end.

Definition is_list (h : store) (l : ref) : bool :=
  match h !! l with
  | Some (List _) => true
  | _ => false
  end.

(** The Python value of an audit entry and of the lists of a [SecureUser.t]. *)
Definition encode_detail (d : SecureUser.detail) : pyval :=
  match d with
  | SecureUser.DStr s => PStr s
  | SecureUser.DBool b => PBool b
  end.

Definition encode_entry (e : SecureUser.entry) : pyval :=
  PDict ([("timestamp", PStr (SecureUser.timestamp e));
          ("action", PStr (SecureUser.action e));
          ("description", PStr (SecureUser.description e));
          ("success", PBool (SecureUser.success e));
          ("user", PStr (SecureUser.user e));
          ("verification_status", PStr (SecureUser.verification_status e))]
         ++ match SecureUser.details e with
            | Some kvs => [("details", PDict (prod_map id encode_detail <$> kvs))]
            | None => []
            end).

End Store.

(** ** Sequences of calls on an [AccountAccess] *)

Module Calls.

Inductive call : Type :=
| Add (permission : string) (is_verified : bool)
| Remove (permission : string)
| ClearAll.

(** The state after a call, whatever it returned. *)
Definition exec (σ : AccountAccess.t * clock) (k : call) : AccountAccess.t * clock :=
  match k with
  | Add p v => (AccountAccess.add_permission p v σ).2
  | Remove p => (AccountAccess.remove_permission p σ).2
  | ClearAll => (AccountAccess.clear_all_permissions σ).2
  end.

Definition exec_all (ks : list call) (σ : AccountAccess.t * clock)
    : AccountAccess.t * clock :=
  foldl exec σ ks.

End Calls.

(** Every granted permission is allowed, and none is granted twice. *)
Definition permissions_ok (a : AccountAccess.t) : Prop :=
  NoDup (AccountAccess.__permissions a) ∧
  ∀ p, p ∈ AccountAccess.__permissions a → p ∈ AccountAccess.ALLOWED_PERMISSIONS.

Definition granted (u : SecureUser.t) : list string :=
  AccountAccess.__permissions (SecureUser.__access u).

Definition state_of (u : SecureUser.t) : string :=
  UserIdentity.__verification_status (SecureUser._identity u).

Definition email_of (u : SecureUser.t) : option string :=
  UserIdentity._email (SecureUser._identity u).

Definition phone_of (u : SecureUser.t) : option string :=
  UserIdentity.__phone_number (SecureUser._identity u).

(** A method that returns, and whose only effect on the audit log is one new
    entry at its end, with the success flag [flag r] of the result [r]. *)
Definition appends_one {A} (m : M (SecureUser.t * clock) A) (flag : A → bool) : Prop :=
  ∀ u c, ∃ r e u' c',
    m (u, c) = (Return r, (u', c')) ∧
    SecureUser.__audit_log u' = SecureUser.__audit_log u ++ [e] ∧
    SecureUser.success e = flag r ∧
    SecureUser.__audit_log u `prefix_of` SecureUser.__audit_log u' ∧
    length (SecureUser.__audit_log u') = S (length (SecureUser.__audit_log u)).

(** *** A concrete account

    [SecureUser("alice", "alice@example.com", "+1-555-111-2222")] built when
    the clock reads 0, 1, 2, ... *)

Definition epoch : clock := Clock str_of_nat 0.

Definition alice : SecureUser.t :=
  SecureUser.Make
    (UserIdentity.Make "alice" (Some "alice@example.com") (Some "+1-555-111-2222")
       "UNVERIFIED"
       [UserIdentity.Entry "0" "EMAIL_CHANGED"
          "Email changed from None to alice@example.com" "UNVERIFIED";
        UserIdentity.Entry "1" "PHONE_SET"
          "Phone number set to +1-555-111-2222" "UNVERIFIED";
        UserIdentity.Entry "2" "INITIALIZED" "User identity created" "UNVERIFIED"])
    (AccountAccess.Make []
       [AccountAccess.Entry "3" "INITIALIZED" "Account access created" []])
    [SecureUser.Entry "4" "USER_CREATED" "SecureUser created for alice" true
       "alice" "UNVERIFIED" None].

Definition newline : string := String re.LF EmptyString.

(** [alice] placed in an empty store, and a caller that appends a dictionary
    of its own to the list it was given, then empties that list. *)
Definition alice_at : Store.secure_user * Store.store := Store.place alice [].

Definition tamper : list Store.mutation :=
  [Store.Create (Store.Dict [("malicious", Store.VStr "entry")]);
   Store.Update (λ items, items ++ [Store.VRef 4]);
   Store.Update (λ _, [])].

(** A caller that also writes to the items of the list it was given. *)
Definition tamper_items : list Store.mutation :=
  [Store.Update (λ items, items ++ [Store.VStr "ADMIN_ACCESS"]);
   Store.SetItemKey 0 "success" (Store.VBool false);
   Store.Update (λ items, Store.VRef 1 :: items);
   Store.SetItemKey 0 "action" (Store.VStr "TAMPERED");
   Store.Update (λ _, [])].

(** The stored contact attributes passed their validators. *)
Definition stored_validated (i : UserIdentity.t) : Prop :=
  (∃ e, UserIdentity._email i = Some e ∧ UserIdentity.__validate_email e = true) ∧
  (∃ ph, UserIdentity.__phone_number i = Some ph ∧ UserIdentity.__validate_phone ph = true).

(** ** Sequences of calls on a [SecureUser] *)

Module Ops.

Inductive op : Type :=
| Grant (permission : string)
| Revoke (permission : string)
| RequestVerification
| VerifyIdentity
| UpdateEmail (new_email : string).

(** The state after a call, whatever it returned. *)
Definition exec (σ : SecureUser.t * clock) (o : op) : SecureUser.t * clock :=
  match o with
  | Grant p => (SecureUser.grant_permission p σ).2
  | Revoke p => (SecureUser.revoke_permission p σ).2
  | RequestVerification => (SecureUser.request_verification σ).2
  | VerifyIdentity => (SecureUser.verify_identity σ).2
  | UpdateEmail e => (SecureUser.update_email e σ).2
  end.

Definition exec_all (os : list op) (σ : SecureUser.t * clock) : SecureUser.t * clock :=
  foldl exec σ os.

(** The action under which the call is entered in the audit log. *)
Definition tag (o : op) : string :=
  match o with
  | Grant _ => "GRANT_PERMISSION"
  | Revoke _ => "REVOKE_PERMISSION"
  | RequestVerification => "REQUEST_VERIFICATION"
  | VerifyIdentity => "VERIFY_IDENTITY"
  | UpdateEmail _ => "UPDATE_EMAIL"
  end.

(** How far along UNVERIFIED -> PENDING -> VERIFIED a status is. *)
Definition rank (status : string) : nat :=
  if String.eqb status "VERIFIED" then 2
  else if String.eqb status "PENDING" then 1
  else 0.

End Ops.

Definition username_of (u : SecureUser.t) : string :=
  UserIdentity.username (SecureUser._identity u).

#[global] Instance op_eq_dec : EqDecision Ops.op.
Proof. solve_decision. Defined.

(** [alice], verified and granted two permissions, placed in an empty store. *)
Definition grantee_at : Store.secure_user * Store.store :=
  Store.place
    (Ops.exec_all
       [Ops.RequestVerification; Ops.VerifyIdentity;
        Ops.Grant "TRANSFER"; Ops.Grant "WITHDRAW"]
       (alice, Clock str_of_nat 5)).1
    [].

(** [os] holds a [RequestVerification] and, somewhere after it, a
    [VerifyIdentity]. *)
Definition requested_then_verified (os : list Ops.op) : Prop :=
  ∃ os1 os2 os3,
    os = os1 ++ Ops.RequestVerification :: os2 ++ Ops.VerifyIdentity :: os3.

(** * Properties *)

Create HintDb py discriminated.

#[local] Hint Unfold bind ret raise try_except gets modify isoformat_now on_attr
  construct list_remove : py.
#[local] Hint Unfold
  UserIdentity.__log_state_change UserIdentity.get_email UserIdentity.set_email
  UserIdentity.get_phone_number UserIdentity.__set_phone_number
  UserIdentity.get_verification_status UserIdentity.request_verification
  UserIdentity.verify UserIdentity.get_state_history UserIdentity.__init__ : py.
#[local] Hint Unfold
  AccountAccess.__log_permission_change AccountAccess.get_permissions
  AccountAccess.add_permission AccountAccess.remove_permission
  AccountAccess.has_permission AccountAccess.clear_all_permissions
  AccountAccess.get_permission_history AccountAccess.__init__ : py.
#[local] Hint Unfold
  SecureUser.identity SecureUser.access SecureUser.__log_action
  SecureUser.grant_permission SecureUser.revoke_permission SecureUser.has_permission
  SecureUser.get_permissions SecureUser.request_verification SecureUser.verify_identity
  SecureUser.identity_status SecureUser.update_email SecureUser.get_audit_log
  SecureUser.__init__ granted state_of email_of : py.

(** The validators are run on concrete strings only. *)
#[local] Arguments UserIdentity.__validate_email : simpl never.
#[local] Arguments UserIdentity.__validate_phone : simpl never.

(** Run the body of a method on a symbolic state. *)
Ltac py_step := autounfold with py; cbn.

(** ** AccountAccess *)

Lemma restricted_allowed (p : string) :
  p ∈ AccountAccess.RESTRICTED_PERMISSIONS → p ∈ AccountAccess.ALLOWED_PERMISSIONS.
Proof.
  unfold AccountAccess.RESTRICTED_PERMISSIONS, AccountAccess.ALLOWED_PERMISSIONS.
  rewrite !elem_of_union, !elem_of_singleton. tauto.
Qed.

Lemma remove_first_elem (x : string) (l : list string) :
  x ∈ l → ∃ l', remove_first x l = Some l'.
Proof.
  induction l as [|y l IH]; intros Hx.
  - by apply elem_of_nil in Hx.
  - cbn. case_bool_decide as Hxy; [eauto|].
    apply elem_of_cons in Hx as [?|Hx]; [done|].
    destruct (IH Hx) as [l' ->]. cbn. eauto.
Qed.

Lemma remove_first_sub (x : string) (l l' : list string) :
  remove_first x l = Some l' → ∀ y, y ∈ l' → y ∈ l.
Proof.
  revert l'. induction l as [|z l IH]; intros l' H y Hy; [done|].
  cbn in H. case_bool_decide.
  - injection H as <-. by apply elem_of_cons; right.
  - destruct (remove_first x l) as [l0|] eqn:E; [|done].
    cbn in H. injection H as <-.
    apply elem_of_cons in Hy as [->|Hy]; [apply elem_of_cons; by left|].
    apply elem_of_cons; right. by eapply IH.
Qed.

Lemma remove_first_NoDup (x : string) (l l' : list string) :
  remove_first x l = Some l' → NoDup l → NoDup l'.
Proof.
  revert l'. induction l as [|z l IH]; intros l' H Hnd; [done|].
  apply NoDup_cons in Hnd as [Hz Hnd].
  cbn in H. case_bool_decide.
  - by injection H as <-.
  - destruct (remove_first x l) as [l0|] eqn:E; [|done].
    cbn in H. injection H as <-.
    apply NoDup_cons. split; [|by apply IH].
    intros Hz'. apply Hz. by eapply remove_first_sub.
Qed.

Lemma add_permission_preserves (a : AccountAccess.t) (c : clock) (p : string) (v : bool) :
  permissions_ok a → permissions_ok (AccountAccess.add_permission p v (a, c)).2.1.
Proof.
  intros [Hnd Hsub]. destruct a as [ps hist]. py_step.
  case_bool_decide as Hallowed; cbn; [|by split].
  case_bool_decide as Hdup; cbn; [by split|].
  destruct (bool_decide (p ∈ AccountAccess.RESTRICTED_PERMISSIONS) && negb v); cbn;
    [by split|].
  split; cbn in *.
  - apply NoDup_app. repeat split; [done| |apply NoDup_singleton].
    intros x Hx ->%list_elem_of_singleton. done.
  - intros x [Hx| ->%list_elem_of_singleton]%elem_of_app; auto.
Qed.

Lemma remove_permission_preserves (a : AccountAccess.t) (c : clock) (p : string) :
  permissions_ok a → permissions_ok (AccountAccess.remove_permission p (a, c)).2.1.
Proof.
  intros [Hnd Hsub]. destruct a as [ps hist]. py_step.
  case_bool_decide as Hin; cbn; [|by split].
  destruct (remove_first_elem p ps Hin) as [ps' Hps']. rewrite Hps'. cbn in *.
  split; cbn.
  - by eapply remove_first_NoDup.
  - intros x Hx. apply Hsub. by eapply remove_first_sub.
Qed.

Lemma clear_all_permissions_preserves (a : AccountAccess.t) (c : clock) :
  permissions_ok (AccountAccess.clear_all_permissions (a, c)).2.1.
Proof.
  destruct a as [ps hist]. py_step. split; cbn; [apply NoDup_nil_2|].
  intros p Hp. by apply elem_of_nil in Hp.
Qed.

Lemma exec_preserves (σ : AccountAccess.t * clock) (k : Calls.call) :
  permissions_ok σ.1 → permissions_ok (Calls.exec σ k).1.
Proof.
  destruct σ as [a c], k as [p v|p|]; cbn [Calls.exec fst]; intros Hok.
  - by apply add_permission_preserves.
  - by apply remove_permission_preserves.
  - apply clear_all_permissions_preserves.
Qed.

Lemma exec_all_preserves (ks : list Calls.call) (σ : AccountAccess.t * clock) :
  permissions_ok σ.1 → permissions_ok (Calls.exec_all ks σ).1.
Proof.
  revert σ. induction ks as [|k ks IH]; intros σ Hok; [done|].
  cbn. apply IH. by apply exec_preserves.
Qed.

Lemma init_permissions_ok (c : clock) :
  ∃ a c', AccountAccess.__init__ c = (Return a, c') ∧
          AccountAccess.__permissions a = [] ∧ permissions_ok a.
Proof.
  eexists _, _. split; [reflexivity|]. split; [done|].
  split; cbn; [apply NoDup_nil_2|]. intros p Hp. by apply elem_of_nil in Hp.
Qed.

(** C5.  From the empty initial state, after any sequence of calls of
    [add_permission], [remove_permission] and [clear_all_permissions], every
    granted permission is a member of [ALLOWED_PERMISSIONS] and no permission
    is granted twice. *)
Theorem granted_permissions_invariant (c : clock) (ks : list Calls.call) :
  ∃ a c',
    AccountAccess.__init__ c = (Return a, c') ∧
    AccountAccess.__permissions a = [] ∧
    NoDup (AccountAccess.__permissions (Calls.exec_all ks (a, c')).1) ∧
    ∀ p, p ∈ AccountAccess.__permissions (Calls.exec_all ks (a, c')).1 →
         p ∈ AccountAccess.ALLOWED_PERMISSIONS.
Proof.
  destruct (init_permissions_ok c) as (a & c' & Hinit & Hempty & Hok).
  exists a, c'. split; [done|]. split; [done|].
  by apply (exec_all_preserves ks (a, c')).
Qed.

(** C9.  [add_permission] checks for a duplicate before it looks at the
    verification flag: in any state reached from the initial one, a
    permission that is already granted is answered with "Permission already
    granted", whatever [is_verified] is and whether or not the permission is
    restricted, and the granted permissions stay as they are. *)
Theorem duplicate_checked_before_verification
    (c c' : clock) (a : AccountAccess.t) (ks : list Calls.call) (p : string) (v : bool) :
  AccountAccess.__init__ c = (Return a, c') →
  p ∈ AccountAccess.__permissions (Calls.exec_all ks (a, c')).1 →
  ∃ σ',
    AccountAccess.add_permission p v (Calls.exec_all ks (a, c'))
    = (Return (false, "Permission already granted: " +:+ p), σ') ∧
    AccountAccess.__permissions σ'.1
    = AccountAccess.__permissions (Calls.exec_all ks (a, c')).1.
Proof.
  intros Hinit Hp.
  destruct (init_permissions_ok c) as (a0 & c0 & Hinit0 & _ & Hok).
  rewrite Hinit in Hinit0. injection Hinit0 as <- <-.
  pose proof (exec_all_preserves ks (a, c') Hok) as [_ Hsub].
  destruct (Calls.exec_all ks (a, c')) as [[ps hist] c1]. cbn in *.
  unfold AccountAccess.add_permission.
  rewrite (bool_decide_eq_true_2 (p ∈ AccountAccess.ALLOWED_PERMISSIONS)) by auto.
  py_step. rewrite bool_decide_eq_true_2 by done. cbn. eauto.
Qed.

Lemma duplicate_checked_before_verification_witness :
  AccountAccess.__init__ epoch
  = (Return (AccountAccess.Make [] [AccountAccess.Entry "0" "INITIALIZED"
                                       "Account access created" []]),
     Clock str_of_nat 1) ∧
  ∃ σ',
    AccountAccess.add_permission "TRANSFER" false
      (Calls.exec_all [Calls.Add "TRANSFER" true]
         (AccountAccess.Make [] [AccountAccess.Entry "0" "INITIALIZED"
                                   "Account access created" []],
          Clock str_of_nat 1))
    = (Return (false, "Permission already granted: TRANSFER"), σ') ∧
    AccountAccess.__permissions σ'.1 = ["TRANSFER"].
Proof.
  split; [reflexivity|].
  refine (duplicate_checked_before_verification epoch (Clock str_of_nat 1)
            (AccountAccess.Make [] [AccountAccess.Entry "0" "INITIALIZED"
                                      "Account access created" []])
            [Calls.Add "TRANSFER" true] "TRANSFER" false _ _).
  - reflexivity.
  - vm_compute. apply list_elem_of_here.
Defined.

(** C10.  [clear_all_permissions] returns the number of permissions held
    before the call, leaves none granted, and appends exactly one [CLEAR_ALL]
    entry to the history; afterwards [has_permission] is false for every
    permission. *)
Theorem clear_all_permissions_spec (a : AccountAccess.t) (c : clock) :
  ∃ e a' c',
    AccountAccess.clear_all_permissions (a, c)
    = (Return (length (AccountAccess.__permissions a)), (a', c')) ∧
    AccountAccess.__permissions a' = [] ∧
    AccountAccess.__permission_history a' = AccountAccess.__permission_history a ++ [e] ∧
    AccountAccess.action e = "CLEAR_ALL" ∧
    ∀ p c1, AccountAccess.has_permission p (a', c1) = (Return false, (a', c1)).
Proof.
  destruct a as [ps hist]. py_step. eexists _, _, _.
  split; [reflexivity|]. repeat split.
Qed.

(** ** UserIdentity *)

(** C2.  The verification state only moves along UNVERIFIED -> PENDING ->
    VERIFIED.  [request_verification] returns True exactly when the state is
    UNVERIFIED and then moves it to PENDING; [verify] returns True exactly
    when the state is PENDING and then moves it to VERIFIED; a call that
    returns False leaves the state as it was.  Neither call raises, and the
    only other mutator, [set_email], does not touch the state. *)
Theorem verification_state_machine (i : UserIdentity.t) (c : clock) :
  (∃ b i' c',
     UserIdentity.request_verification (i, c) = (Return b, (i', c')) ∧
     (b = true ↔ UserIdentity.__verification_status i = "UNVERIFIED") ∧
     UserIdentity.__verification_status i'
     = (if b then "PENDING" else UserIdentity.__verification_status i)) ∧
  (∃ b i' c',
     UserIdentity.verify (i, c) = (Return b, (i', c')) ∧
     (b = true ↔ UserIdentity.__verification_status i = "PENDING") ∧
     UserIdentity.__verification_status i'
     = (if b then "VERIFIED" else UserIdentity.__verification_status i)) ∧
  (∀ new_email,
     UserIdentity.__verification_status (UserIdentity.set_email new_email (i, c)).2.1
     = UserIdentity.__verification_status i).
Proof.
  destruct i as [name email phone status hist]. split; [|split]; py_step;
    [| |by intros e; destruct (UserIdentity.__validate_email e)].
  - destruct (String.eqb_spec status "UNVERIFIED") as [->|Hne]; cbn;
      eexists _, _, _; (split; [reflexivity|]); (split; [|done]);
      split; intros; congruence.
  - destruct (String.eqb_spec status "PENDING") as [->|Hne]; cbn;
      eexists _, _, _; (split; [reflexivity|]); (split; [|done]);
      split; intros; congruence.
Qed.

(** ** SecureUser *)

Lemma alice_constructed :
  SecureUser.__init__ "alice" "alice@example.com" "+1-555-111-2222" epoch
  = (Return alice, Clock str_of_nat 5).
Proof. reflexivity. Qed.

(** C4.  Granting a permission that is not in [ALLOWED_PERMISSIONS] returns
    (False, "Invalid permission: p") and leaves the granted permissions as
    they are, in every verification state. *)
Theorem grant_unknown_permission (u : SecureUser.t) (c : clock) (p : string) :
  p ∉ AccountAccess.ALLOWED_PERMISSIONS →
  ∃ u' c',
    SecureUser.grant_permission p (u, c)
    = (Return (false, "Invalid permission: " +:+ p), (u', c')) ∧
    granted u' = granted u ∧ state_of u' = state_of u.
Proof.
  intros Hp. destruct u as [i [ps hist] log]. py_step.
  rewrite bool_decide_eq_false_2 by done. cbn. eauto.
Qed.

Lemma grant_unknown_permission_witness :
  ("ADMIN_ACCESS" ∉ AccountAccess.ALLOWED_PERMISSIONS) ∧
  ∃ u' c',
    SecureUser.grant_permission "ADMIN_ACCESS" (alice, Clock str_of_nat 5)
    = (Return (false, "Invalid permission: ADMIN_ACCESS"), (u', c')) ∧
    granted u' = [] ∧ state_of u' = "UNVERIFIED".
Proof.
  assert (H : "ADMIN_ACCESS" ∉ AccountAccess.ALLOWED_PERMISSIONS)
    by (refine (bool_decide_eq_false_1 _ _); vm_compute; reflexivity).
  split; [exact H|].
  exact (grant_unknown_permission alice (Clock str_of_nat 5) "ADMIN_ACCESS" H).
Defined.

(** C1.  For a restricted permission that is not yet granted,
    [grant_permission] fails and leaves the granted permissions as they are
    while the verification state is not VERIFIED, and returns
    (True, "Permission granted: p") and adds the permission once the state is
    VERIFIED. *)
Theorem grant_restricted_permission (u : SecureUser.t) (c : clock) (p : string) :
  p ∈ AccountAccess.RESTRICTED_PERMISSIONS →
  p ∉ granted u →
  ∃ b msg u' c',
    SecureUser.grant_permission p (u, c) = (Return (b, msg), (u', c')) ∧
    (state_of u ≠ "VERIFIED" →
     b = false ∧ msg = "Cannot grant '" +:+ p +:+ "' - user must be VERIFIED" ∧
     granted u' = granted u) ∧
    (state_of u = "VERIFIED" →
     b = true ∧ msg = "Permission granted: " +:+ p ∧ granted u' = granted u ++ [p]).
Proof.
  intros Hr Hnew. pose proof (restricted_allowed p Hr) as Ha.
  destruct u as [[name email phone status shist] [ps hist] log]. py_step.
  rewrite (bool_decide_eq_true_2 _ Ha). cbn in *.
  rewrite (bool_decide_eq_false_2 _ Hnew), (bool_decide_eq_true_2 _ Hr). cbn.
  destruct (String.eqb_spec status "VERIFIED") as [->|Hne]; cbn;
    eexists _, _, _, _; (split; [reflexivity|]); split; intros H; done.
Qed.

Lemma grant_restricted_permission_witness :
  "TRANSFER" ∈ AccountAccess.RESTRICTED_PERMISSIONS ∧
  ("TRANSFER" ∉ granted alice) ∧
  ∃ b msg u' c',
    SecureUser.grant_permission "TRANSFER" (alice, Clock str_of_nat 5)
    = (Return (b, msg), (u', c')) ∧
    (state_of alice ≠ "VERIFIED" →
     b = false ∧ msg = "Cannot grant 'TRANSFER' - user must be VERIFIED" ∧
     granted u' = granted alice) ∧
    (state_of alice = "VERIFIED" →
     b = true ∧ msg = "Permission granted: TRANSFER" ∧
     granted u' = granted alice ++ ["TRANSFER"]).
Proof.
  assert (H1 : "TRANSFER" ∈ AccountAccess.RESTRICTED_PERMISSIONS)
    by (refine (bool_decide_eq_true_1 _ _); vm_compute; reflexivity).
  assert (H2 : "TRANSFER" ∉ granted alice) by apply not_elem_of_nil.
  split; [exact H1|]. split; [exact H2|].
  exact (grant_restricted_permission alice (Clock str_of_nat 5) "TRANSFER" H1 H2).
Defined.

Ltac appended :=
  eexists _, _, _, _; split; [reflexivity|]; cbn;
  repeat split; [by eexists | rewrite length_app; cbn; lia].

Lemma grant_permission_appends (p : string) :
  appends_one (SecureUser.grant_permission p) fst.
Proof.
  intros [[name email phone status shist] [ps hist] log] c. py_step.
  case_bool_decide; cbn; [|appended].
  case_bool_decide; cbn; [appended|].
  destruct (bool_decide (p ∈ AccountAccess.RESTRICTED_PERMISSIONS)
            && negb (String.eqb status "VERIFIED")); cbn; appended.
Qed.

Lemma revoke_permission_appends (p : string) :
  appends_one (SecureUser.revoke_permission p) fst.
Proof.
  intros [[name email phone status shist] [ps hist] log] c. py_step.
  case_bool_decide as Hin; cbn; [|appended].
  destruct (remove_first_elem p ps Hin) as [ps' ->]. cbn. appended.
Qed.

Lemma request_verification_appends :
  appends_one SecureUser.request_verification id.
Proof.
  intros [[name email phone status shist] [ps hist] log] c. py_step.
  destruct (String.eqb status "UNVERIFIED"); cbn; appended.
Qed.

Lemma verify_identity_appends :
  appends_one SecureUser.verify_identity id.
Proof.
  intros [[name email phone status shist] [ps hist] log] c. py_step.
  destruct (String.eqb status "PENDING"); cbn; appended.
Qed.

Lemma update_email_appends (new_email : string) :
  appends_one (SecureUser.update_email new_email) fst.
Proof.
  intros [[name email phone status shist] [ps hist] log] c. py_step.
  destruct (UserIdentity.__validate_email new_email); cbn; appended.
Qed.

(** C6.  Each of [grant_permission], [revoke_permission],
    [request_verification], [verify_identity] and [update_email] returns
    (it does not raise) and appends exactly one entry to the audit log,
    carrying the success flag of the result: the old log is a prefix of the
    new one, which is longer by one. *)
Theorem audit_log_append_only (permission new_email : string) :
  appends_one (SecureUser.grant_permission permission) fst ∧
  appends_one (SecureUser.revoke_permission permission) fst ∧
  appends_one SecureUser.request_verification id ∧
  appends_one SecureUser.verify_identity id ∧
  appends_one (SecureUser.update_email new_email) fst.
Proof.
  split; [apply grant_permission_appends|].
  split; [apply revoke_permission_appends|].
  split; [apply request_verification_appends|].
  split; [apply verify_identity_appends|].
  apply update_email_appends.
Qed.

(** ** The accessors and the caller *)

Section store_frame.
Import Store.

Lemma lookup_alloc_old (o : object) (h : store) (a : ref) :
  a < length h → (alloc o h).2 !! a = h !! a.
Proof. intros Ha. cbn. by apply lookup_app_l. Qed.

Lemma lookup_alloc_new (o : object) (h : store) :
  (alloc o h).2 !! (alloc o h).1 = Some o.
Proof. cbn. by apply list_lookup_middle. Qed.

(** A change of the list at [l] itself leaves every other object alone. *)
Lemma mutate_frame (l : ref) (m : mutation) (h : store) (n : nat) :
  list_level m = true → n ≤ l → n ≤ length h →
  n ≤ length (mutate l m h) ∧ ∀ a, a < n → mutate l m h !! a = h !! a.
Proof.
  intros Hm Hl Hn. destruct m as [f|o|i key v]; [| |done]; cbn.
  - destruct (h !! l) as [[items|fields]|]; try done.
    rewrite length_insert. split; [done|]. intros a Ha.
    apply list_lookup_insert_ne. lia.
  - rewrite length_app. split; [lia|]. intros a Ha. apply lookup_app_l. lia.
Qed.

Lemma mutate_all_frame (l : ref) (ms : list mutation) (h : store) (n : nat) :
  forallb list_level ms = true → n ≤ l → n ≤ length h →
  n ≤ length (mutate_all l ms h) ∧ ∀ a, a < n → mutate_all l ms h !! a = h !! a.
Proof.
  intros Hms Hl. revert h. induction ms as [|m ms IH]; intros h Hn; [done|].
  cbn in Hms. apply andb_true_iff in Hms as [Hm Hms].
  cbn. destruct (mutate_frame l m h n Hm Hl Hn) as [Hlen Hsame].
  destruct (IH Hms _ Hlen) as [Hlen' Hsame']. split; [done|].
  intros a Ha. rewrite Hsame' by done. by apply Hsame.
Qed.

(** Nothing the caller does through [l] changes another list: a change of the
    list changes [l], and a write to an item changes a dictionary. *)
Lemma mutate_keeps_list (l : ref) (m : mutation) (h : store) (p : ref) (items : list value) :
  p ≠ l → h !! p = Some (List items) → mutate l m h !! p = Some (List items).
Proof.
  intros Hne Hp. destruct m as [f|o|i key v]; cbn.
  - destruct (h !! l) as [[its|]|]; try done. by rewrite list_lookup_insert_ne.
  - rewrite lookup_app_l; [done|by eapply lookup_lt_Some].
  - unfold set_item_key. destruct (h !! l) as [[its|]|]; try done.
    destruct (its !! i) as [[| | |d]|]; try done.
    destruct (h !! d) as [[|fields]|] eqn:Hd; try done.
    rewrite list_lookup_insert_ne; [done|]. intros ->. congruence.
Qed.

Lemma mutate_all_keeps_list
    (l : ref) (ms : list mutation) (h : store) (p : ref) (items : list value) :
  p ≠ l → h !! p = Some (List items) → mutate_all l ms h !! p = Some (List items).
Proof.
  intros Hne. revert h. induction ms as [|m ms IH]; intros h Hp; [done|].
  cbn. by apply IH, mutate_keeps_list.
Qed.

Lemma closed_lookup (h : store) (a : ref) (o : object) :
  closed h = true → h !! a = Some o → object_closed (length h) o = true.
Proof.
  intros Hc Ho. unfold closed in Hc. rewrite forallb_forall in Hc.
  apply Hc, list_elem_of_In. by eapply list_elem_of_lookup_2.
Qed.

(** A closed store is read the same way inside any store that extends or
    changes it only beyond its end. *)
Lemma deref_frame (h h' : store) (fuel : nat) (v : value) :
  closed h = true →
  (∀ a, a < length h → h' !! a = h !! a) →
  value_closed (length h) v = true →
  deref fuel h' v = deref fuel h v.
Proof.
  intros Hc Hsame. revert v. induction fuel as [|fuel IH]; intros v Hv;
    destruct v as [| | |r]; try done.
  cbn in Hv. apply bool_decide_eq_true_1 in Hv. cbn [deref]. rewrite (Hsame r Hv).
  destruct (h !! r) as [o|] eqn:Ho; [|done].
  pose proof (closed_lookup h r o Hc Ho) as Hoc.
  destruct o as [items|fields]; cbn in Hoc; rewrite forallb_forall in Hoc; f_equal.
  - apply list_fmap_ext. intros i x Hx. apply IH, Hoc, list_elem_of_In.
    by eapply list_elem_of_lookup_2.
  - apply list_fmap_ext. intros i [k x] Hx. cbn. f_equal.
    apply IH. apply (Hoc (k, x)), list_elem_of_In.
    by eapply list_elem_of_lookup_2.
Qed.

(** A list with the items of a list of a closed store reads as that list,
    wherever it is. *)
Lemma copy_reads (h g : store) (l r : ref) (items : list value) (fuel : nat) :
  closed h = true →
  h !! l = Some (List items) →
  (∀ a, a < length h → g !! a = h !! a) →
  g !! r = Some (List items) →
  deref fuel g (VRef r) = deref fuel h (VRef l).
Proof.
  intros Hc Hl Hg Hr. destruct fuel as [|fuel]; [done|]. cbn [deref].
  rewrite Hl, Hr. f_equal. apply list_fmap_ext. intros i x Hx.
  apply deref_frame; [done|done|].
  pose proof (closed_lookup h l _ Hc Hl) as Hoc. cbn in Hoc.
  rewrite forallb_forall in Hoc. apply Hoc, list_elem_of_In.
  by eapply list_elem_of_lookup_2.
Qed.

(** Two lists with the same strings read the same, in whatever stores. *)
Lemma str_list_reads (h g : store) (l r : ref) (items : list value) (fuel : nat) :
  forallb is_str items = true →
  h !! l = Some (List items) →
  g !! r = Some (List items) →
  deref fuel g (VRef r) = deref fuel h (VRef l).
Proof.
  intros Hs Hl Hr. destruct fuel as [|fuel]; [done|]. cbn [deref].
  rewrite Hl, Hr. f_equal. apply list_fmap_ext. intros i x Hx.
  rewrite forallb_forall in Hs.
  assert (Hx' : is_str x = true)
    by (apply Hs, list_elem_of_In; by eapply list_elem_of_lookup_2).
  destruct x; try done. by destruct fuel.
Qed.

Lemma deref_value_of_opt (fuel : nat) (h : store) (o : option string) :
  deref fuel h (value_of_opt o) = from_option PStr PNone o.
Proof. by destruct o, fuel. Qed.

(** [l.copy()], any changes by the caller to the new list itself, and a
    second [l.copy()]: the first copy reads as [l], the second reads as the
    first did, and [l] is as it was. *)
Lemma list_copy_independent (l : ref) (h : store) (ms : list mutation) (fuel : nat) :
  closed h = true → is_list h l = true → forallb list_level ms = true →
  ∃ r h1 r' h2,
    list_copy l h = Some (r, h1) ∧
    deref fuel h1 (VRef r) = deref fuel h (VRef l) ∧
    list_copy l (mutate_all r ms h1) = Some (r', h2) ∧
    h2 !! l = h !! l ∧
    deref fuel h2 (VRef r') = deref fuel h1 (VRef r).
Proof.
  intros Hc Hl Hms. unfold is_list in Hl. unfold list_copy.
  destruct (h !! l) as [[items|]|] eqn:Hitems; try done.
  assert (Hlt : l < length h) by by eapply lookup_lt_Some.
  set (h1 := h ++ [List items]).
  set (h' := mutate_all (length h) ms h1).
  assert (Hsame1 : ∀ a, a < length h → h1 !! a = h !! a)
    by (intros a Ha; by apply lookup_app_l).
  destruct (mutate_all_frame (length h) ms h1 (length h)) as [Hlen Hsame];
    [done|done|subst h1; rewrite length_app; lia|]. fold h' in Hlen, Hsame.
  assert (Hsame2 : ∀ a, a < length h → (h' ++ [List items]) !! a = h !! a).
  { intros a Ha. rewrite lookup_app_l by lia. rewrite Hsame by done. by apply Hsame1. }
  assert (Hfirst : deref fuel h1 (VRef (length h)) = deref fuel h (VRef l)).
  { apply (copy_reads h h1 l (length h) items); try done.
    by apply list_lookup_middle. }
  exists (length h), h1, (length h'), (h' ++ [List items]).
  split; [done|]. split; [done|]. split.
  { fold h'. by rewrite (Hsame l Hlt), (Hsame1 l Hlt), Hitems. }
  split; [by rewrite Hsame2|].
  rewrite (copy_reads h _ l (length h') items fuel Hc Hitems Hsame2)
    by by apply list_lookup_middle.
  by symmetry.
Qed.

(** For a list of strings the same holds whatever the caller does, writes to
    items included: there is no item to write to. *)
Lemma str_list_copy_independent (l : ref) (h : store) (ms : list mutation) (fuel : nat) :
  is_str_list h l = true →
  ∃ r h1 r' h2,
    list_copy l h = Some (r, h1) ∧
    deref fuel h1 (VRef r) = deref fuel h (VRef l) ∧
    list_copy l (mutate_all r ms h1) = Some (r', h2) ∧
    h2 !! l = h !! l ∧
    deref fuel h2 (VRef r') = deref fuel h1 (VRef r).
Proof.
  intros Hl. unfold is_str_list in Hl. unfold list_copy.
  destruct (h !! l) as [[items|]|] eqn:Hitems; try done.
  assert (Hlt : l < length h) by by eapply lookup_lt_Some.
  set (h1 := h ++ [List items]).
  set (h' := mutate_all (length h) ms h1).
  assert (Hl1 : h1 !! l = Some (List items))
    by (subst h1; by rewrite lookup_app_l).
  assert (Hr1 : h1 !! length h = Some (List items))
    by by apply list_lookup_middle.
  assert (Hl' : h' !! l = Some (List items))
    by (apply mutate_all_keeps_list; [lia|done]).
  assert (Hlt' : l < length h') by by eapply lookup_lt_Some.
  exists (length h), h1, (length h'), (h' ++ [List items]).
  split; [done|]. split; [by apply (str_list_reads h h1 l (length h) items)|].
  split; [fold h'; by rewrite Hl'|].
  split; [by rewrite lookup_app_l, Hl'|].
  apply (str_list_reads h1 _ (length h) (length h') items); try done.
  by apply list_lookup_middle.
Qed.

(** The same for the list under the key [permissions] of the dictionary that
    [identity_status] returns, and for the dictionary as a whole. *)
Lemma identity_status_independent
    (self : secure_user) (h : store) (ms : list mutation) (fuel : nat) :
  is_str_list h (permissions_at self) = true →
  ∃ d h1 l d' h2 l',
    identity_status self h = Some (d, h1) ∧
    getitem h1 d "permissions" = Some (VRef l) ∧
    deref fuel h1 (VRef l) = deref fuel h (VRef (permissions_at self)) ∧
    identity_status self (mutate_all l ms h1) = Some (d', h2) ∧
    getitem h2 d' "permissions" = Some (VRef l') ∧
    h2 !! permissions_at self = h !! permissions_at self ∧
    deref fuel h2 (VRef l') = deref fuel h1 (VRef l) ∧
    deref fuel h2 (VRef d') = deref fuel h1 (VRef d).
Proof.
  intros Hl. unfold is_str_list in Hl.
  unfold identity_status, get_permissions, list_copy.
  destruct self as [i p log]. cbn [permissions_at identity] in *.
  destruct (h !! p) as [[items|]|] eqn:Hitems; try done.
  assert (Hlt : p < length h) by by eapply lookup_lt_Some.
  cbn [alloc fst snd].
  set (dict := λ l : ref,
    Dict [("username", VStr (UserIdentity.username i));
          ("email", value_of_opt (UserIdentity._email i));
          ("phone", value_of_opt (UserIdentity.__phone_number i));
          ("verification_status", VStr (UserIdentity.__verification_status i));
          ("permissions", VRef l)]).
  set (h1 := (h ++ [List items]) ++ [dict (length h)]).
  set (h' := mutate_all (length h) ms h1).
  assert (Hp1 : h1 !! p = Some (List items)).
  { subst h1. rewrite lookup_app_l by (rewrite length_app; lia).
    by rewrite lookup_app_l. }
  assert (Hp' : h' !! p = Some (List items))
    by (apply mutate_all_keeps_list; [lia|done]).
  assert (Hlt' : p < length h') by by eapply lookup_lt_Some.
  set (h2 := (h' ++ [List items]) ++ [dict (length h')]).
  assert (Hp2 : h2 !! p = Some (List items)).
  { subst h2. rewrite lookup_app_l by (rewrite length_app; lia).
    by rewrite lookup_app_l. }
  assert (Hl1 : h1 !! length h = Some (List items)).
  { subst h1. rewrite lookup_app_l by (rewrite length_app; cbn; lia).
    by apply list_lookup_middle. }
  assert (Hl2 : h2 !! length h' = Some (List items)).
  { subst h2. rewrite lookup_app_l by (rewrite length_app; cbn; lia).
    by apply list_lookup_middle. }
  assert (Hd1 : h1 !! length (h ++ [List items]) = Some (dict (length h)))
    by by apply list_lookup_middle.
  assert (Hd2 : h2 !! length (h' ++ [List items]) = Some (dict (length h')))
    by by apply list_lookup_middle.
  assert (Hlists : ∀ n, deref n h2 (VRef (length h')) = deref n h1 (VRef (length h)))
    by (intros n; by apply (str_list_reads h1 h2 (length h) (length h') items)).
  exists (length (h ++ [List items])), h1, (length h),
         (length (h' ++ [List items])), h2, (length h').
  split; [done|]. split; [unfold getitem; by rewrite Hd1|].
  split; [by apply (str_list_reads h h1 p (length h) items)|].
  split. { fold h'. by rewrite Hp'. }
  split; [unfold getitem; by rewrite Hd2|].
  split; [by rewrite Hp2|]. split; [apply Hlists|].
  destruct fuel as [|fuel]; [done|]. cbn [deref]. rewrite Hd1, Hd2.
  cbn. rewrite !deref_value_of_opt, Hlists. by destruct fuel.
Qed.

(** [log = get_audit_log(); log[i][key] = v; get_audit_log()]: the copy is one
    level deep, so the items of the returned list are the entries of the
    internal log themselves, and the write is found in the entry that the
    internal log and the next copy hold. *)
Lemma audit_entries_are_shared
    (self : secure_user) (h : store) (items : list value) (i : nat) (d : ref)
    (fields : list (string * value)) (key : string) (v : value) :
  h !! audit_log_at self = Some (List items) →
  items !! i = Some (VRef d) →
  h !! d = Some (Dict fields) →
  ∃ l h1 l' h2,
    get_audit_log self h = Some (l, h1) ∧
    h1 !! l = Some (List items) ∧
    get_audit_log self (mutate l (SetItemKey i key v) h1) = Some (l', h2) ∧
    h2 !! audit_log_at self = Some (List items) ∧
    h2 !! l' = Some (List items) ∧
    h2 !! d = Some (Dict (dict_set key v fields)).
Proof.
  intros Ha Hi Hd. unfold get_audit_log, list_copy. rewrite Ha.
  assert (Hlt : audit_log_at self < length h) by by eapply lookup_lt_Some.
  assert (Hdlt : d < length h) by by eapply lookup_lt_Some.
  assert (Hne : audit_log_at self ≠ d) by (intros E; congruence).
  set (h1 := h ++ [List items]).
  assert (Hl1 : h1 !! length h = Some (List items)) by by apply list_lookup_middle.
  assert (Hd1 : h1 !! d = Some (Dict fields)) by (subst h1; by rewrite lookup_app_l).
  assert (Ha1 : h1 !! audit_log_at self = Some (List items))
    by (subst h1; by rewrite lookup_app_l).
  assert (Hlen1 : length h1 = S (length h))
    by (subst h1; rewrite length_app; cbn; lia).
  set (h' := <[d := Dict (dict_set key v fields)]> h1).
  assert (Hm : mutate (length h) (SetItemKey i key v) h1 = h').
  { cbn. unfold set_item_key. by rewrite Hl1, Hi, Hd1. }
  assert (Ha' : h' !! audit_log_at self = Some (List items)).
  { subst h'. rewrite list_lookup_insert_ne; [done|]. by intros E. }
  assert (Hlen' : length h' = S (length h)) by (subst h'; by rewrite length_insert).
  exists (length h), h1, (length h'), (h' ++ [List items]).
  split; [done|]. split; [done|]. rewrite Hm, Ha'. split; [done|].
  split; [rewrite lookup_app_l; [done|lia]|].
  split; [by apply list_lookup_middle|].
  rewrite lookup_app_l by lia. subst h'.
  apply list_lookup_insert_eq. lia.
Qed.

End store_frame.

(** C8.  [get_audit_log] returns a new list whose items are the entries of the
    internal log themselves.  For the account [alice]: the caller takes the
    log, which reads as one successful [USER_CREATED] entry, and assigns
    [False] to the key [success] of its first item; the next call of
    [get_audit_log] returns a list that reads differently, with [success]
    false.  The write went through the returned sequence into internal
    storage. *)
Theorem get_audit_log_shares_entries :
  ∃ l h1 l' h2,
    Store.get_audit_log alice_at.1 alice_at.2 = Some (l, h1) ∧
    Store.deref 3 h1 (Store.VRef l)
    = Store.PList
        [Store.PDict
           [("timestamp", Store.PStr "4");
            ("action", Store.PStr "USER_CREATED");
            ("description", Store.PStr "SecureUser created for alice");
            ("success", Store.PBool true);
            ("user", Store.PStr "alice");
            ("verification_status", Store.PStr "UNVERIFIED")]] ∧
    Store.get_audit_log alice_at.1
      (Store.mutate l (Store.SetItemKey 0 "success" (Store.VBool false)) h1)
    = Some (l', h2) ∧
    Store.deref 3 h2 (Store.VRef l')
    = Store.PList
        [Store.PDict
           [("timestamp", Store.PStr "4");
            ("action", Store.PStr "USER_CREATED");
            ("description", Store.PStr "SecureUser created for alice");
            ("success", Store.PBool false);
            ("user", Store.PStr "alice");
            ("verification_status", Store.PStr "UNVERIFIED")]] ∧
    Store.deref 3 h2 (Store.VRef (Store.audit_log_at alice_at.1))
    = Store.deref 3 h2 (Store.VRef l').
Proof.
  eexists _, _, _, _.
  split; [vm_compute; reflexivity|]. split; [vm_compute; reflexivity|].
  split; [vm_compute; reflexivity|]. split; vm_compute; reflexivity.
Qed.

(** ** Validation at the boundary *)

Lemma identity_init_invalid_email (name email phone : string) (c : clock) :
  UserIdentity.__validate_email email = false →
  UserIdentity.__init__ name email phone c
  = (Raise (ValueError ("Invalid email format: " +:+ email)), c).
Proof. intros H. py_step. rewrite H. by destruct c. Qed.

Lemma identity_init_invalid_phone (name email phone : string) (c : clock) :
  UserIdentity.__validate_email email = true →
  UserIdentity.__validate_phone phone = false →
  UserIdentity.__init__ name email phone c
  = (Raise (ValueError ("Invalid phone format: " +:+ phone)),
     Clock (readings c) (S (ticks c))).
Proof. intros He Hp. py_step. rewrite He. cbn. by rewrite Hp. Qed.

Lemma identity_init_valid (name email phone : string) (c : clock) :
  UserIdentity.__validate_email email = true →
  UserIdentity.__validate_phone phone = true →
  ∃ hist c',
    UserIdentity.__init__ name email phone c
    = (Return (UserIdentity.Make name (Some email) (Some phone) "UNVERIFIED" hist), c') ∧
    length hist = 3.
Proof. intros He Hp. py_step. rewrite He. cbn. rewrite Hp. cbn. eauto. Qed.

(** Whatever the arguments, [SecureUser(...)] raises the validation error of
    the first attribute that its validator rejects, and otherwise returns an
    account that stores the two attributes as given. *)
Lemma init_invalid_email (name email phone : string) (c : clock) :
  UserIdentity.__validate_email email = false →
  SecureUser.__init__ name email phone c
  = (Raise (ValueError ("Invalid email format: " +:+ email)), c).
Proof.
  intros H. unfold SecureUser.__init__, bind.
  by rewrite identity_init_invalid_email.
Qed.

Lemma init_invalid_phone (name email phone : string) (c : clock) :
  UserIdentity.__validate_email email = true →
  UserIdentity.__validate_phone phone = false →
  SecureUser.__init__ name email phone c
  = (Raise (ValueError ("Invalid phone format: " +:+ phone)),
     Clock (readings c) (S (ticks c))).
Proof.
  intros He Hp. unfold SecureUser.__init__, bind.
  by rewrite identity_init_invalid_phone.
Qed.

Lemma init_valid (name email phone : string) (c : clock) :
  UserIdentity.__validate_email email = true →
  UserIdentity.__validate_phone phone = true →
  ∃ u c',
    SecureUser.__init__ name email phone c = (Return u, c') ∧
    email_of u = Some email ∧ phone_of u = Some phone ∧
    state_of u = "UNVERIFIED" ∧ granted u = [] ∧
    stored_validated (SecureUser._identity u).
Proof.
  intros He Hp. unfold SecureUser.__init__, bind.
  destruct (identity_init_valid name email phone c He Hp) as (hist & c' & -> & _).
  py_step. eexists _, _. split; [reflexivity|]. cbn.
  repeat split; eauto.
Qed.

Lemma init_phone_example :
  SecureUser.__init__ "charlie" "charlie@example.com" "123456789" epoch
  = (Raise (ValueError "Invalid phone format: 123456789"), Clock str_of_nat 1).
Proof. reflexivity. Qed.

Lemma set_email_validated (new_email : string) (i : UserIdentity.t) (c : clock) :
  stored_validated i → stored_validated (UserIdentity.set_email new_email (i, c)).2.1.
Proof.
  intros Hv. destruct i as [name email phone status hist]. py_step.
  destruct (UserIdentity.__validate_email new_email) eqn:He; cbn; [|done].
  destruct Hv as [_ Hp]. split; cbn; eauto.
Qed.

(** A candidate that the validator rejects: the error is caught, the result
    is (False, message), one failed entry is logged, nothing else changes. *)
Lemma update_email_rejected (new_email : string) (u : SecureUser.t) (c : clock) :
  UserIdentity.__validate_email new_email = false →
  ∃ e,
    SecureUser.update_email new_email (u, c)
    = (Return (false, "Invalid email format: " +:+ new_email),
       (SecureUser.with_audit_log (SecureUser.__audit_log u ++ [e]) u,
        Clock (readings c) (S (ticks c)))) ∧
    SecureUser.action e = "UPDATE_EMAIL" ∧
    SecureUser.success e = false ∧
    SecureUser.description e
    = "Failed to update email: Invalid email format: " +:+ new_email.
Proof.
  intros H. destruct u as [[name email phone status shist] [ps hist] log].
  py_step. rewrite H. cbn. eauto.
Qed.

Lemma update_email_accepted (new_email : string) (u : SecureUser.t) (c : clock) :
  UserIdentity.__validate_email new_email = true →
  ∃ u' c',
    SecureUser.update_email new_email (u, c)
    = (Return (true, "Email updated successfully"), (u', c')) ∧
    email_of u' = Some new_email.
Proof.
  intros H. destruct u as [[name email phone status shist] [ps hist] log].
  py_step. rewrite H. cbn. eauto.
Qed.

(** C3.  [update_email] never raises, and a candidate that the validator
    rejects is answered with (False, message) ([update_email_rejected]).  But
    the validator accepts an address followed by a newline, which does not
    have the shape of an address: for "bob@example.com\n" the call returns
    (True, "Email updated successfully") and stores the candidate. *)
Theorem update_email_trailing_newline :
  Shape.email ("bob@example.com" +:+ newline) = false ∧
  UserIdentity.__validate_email ("bob@example.com" +:+ newline) = true ∧
  ∃ u' c',
    SecureUser.update_email ("bob@example.com" +:+ newline) (alice, Clock str_of_nat 5)
    = (Return (true, "Email updated successfully"), (u', c')) ∧
    email_of alice = Some "alice@example.com" ∧
    email_of u' = Some ("bob@example.com" +:+ newline).
Proof.
  split; [reflexivity|]. split; [reflexivity|].
  eexists _, _. split; [vm_compute; reflexivity|]. split; reflexivity.
Qed.

(** C7.  A phone number or an address that the validator rejects makes the
    constructor raise ([init_invalid_phone], [init_invalid_email]), and
    "123456789" is rejected ([init_phone_example]).  But the validator
    accepts a phone number followed by a newline, which does not have the
    shape [+<1-3 digits>-<2-3 digits>-<3-4 digits>-<4-5 digits>]: the
    constructor returns an account that stores it. *)
Theorem init_phone_trailing_newline :
  Shape.phone ("+1-555-111-2222" +:+ newline) = false ∧
  UserIdentity.__validate_phone ("+1-555-111-2222" +:+ newline) = true ∧
  ∃ u c',
    SecureUser.__init__ "charlie" "charlie@example.com"
      ("+1-555-111-2222" +:+ newline) epoch = (Return u, c') ∧
    phone_of u = Some ("+1-555-111-2222" +:+ newline).
Proof.
  split; [reflexivity|]. split; [reflexivity|].
  eexists _, _. split; [vm_compute; reflexivity|]. reflexivity.
Qed.

(** ** The validators and the shapes *)

#[local] Arguments String.append : simpl nomatch.

Lemma str_app_nil_r (s : string) : s +:+ "" = s.
Proof. induction s as [|c s IH]; simpl; [done|by rewrite IH]. Qed.

Lemma str_app_assoc (s1 s2 s3 : string) : (s1 +:+ s2) +:+ s3 = s1 +:+ s2 +:+ s3.
Proof. induction s1 as [|c s1 IH]; simpl; [done|by rewrite IH]. Qed.

Lemma str_length_app (s1 s2 : string) :
  String.length (s1 +:+ s2) = String.length s1 + String.length s2.
Proof. induction s1 as [|c s1 IH]; simpl; [done|by rewrite IH]. Qed.

Lemma all_app (cls : ascii → bool) (s1 s2 : string) :
  Shape.all cls (s1 +:+ s2) = Shape.all cls s1 && Shape.all cls s2.
Proof. induction s1 as [|c s1 IH]; simpl; [done|]. by rewrite IH, andb_assoc. Qed.

(** What a greedy repetition followed by [k] accepts: some run of [cls]
    characters of an allowed length, followed by something [k] accepts. *)
Lemma rep_spec (cls : ascii → bool) (lo : nat) (hi : option nat)
    (k : nat → string → bool) (pos : nat) (s : string) :
  re.rep cls lo hi k pos s = true ↔
  ∃ w r, s = w +:+ r ∧ Shape.all cls w = true ∧
         lo ≤ String.length w ∧ re.within hi (String.length w) ∧
         k (pos + String.length w) r = true.
Proof.
  revert lo hi pos. induction s as [|c s IH]; intros lo hi pos; cbn [re.rep].
  - split.
    + destruct lo; [|done]. cbn. intros Hk. exists "", "". cbn.
      rewrite Nat.add_0_r. repeat split; try done. destruct hi; cbn; lia.
    + intros (w & r & Hs & _ & Hlo & _ & Hk). destruct w; [|done].
      cbn in *. subst r. destruct lo; [|lia]. by rewrite Nat.add_0_r in Hk.
  - rewrite orb_true_iff, !andb_true_iff, IH. split.
    + intros [[[Hc Hmay] (w & r & -> & Hw & Hlo & Hhi & Hk)]|Hk].
      * exists (String c w), r. cbn. rewrite Hc, Hw.
        repeat split; [lia| |by rewrite Nat.add_succ_r].
        destruct hi as [[|h]|]; cbn in *; try done. lia.
      * destruct lo; [|done]. exists "", (String c s). cbn.
        rewrite Nat.add_0_r. repeat split; try done. destruct hi; cbn; lia.
    + intros (w & r & Hs & Hw & Hlo & Hhi & Hk). destruct w as [|c' w].
      * right. cbn in *. subst r. destruct lo; [|lia].
        by rewrite Nat.add_0_r in Hk.
      * left. cbn in Hs, Hw, Hlo, Hhi, Hk. injection Hs as <- ->.
        apply andb_true_iff in Hw as [Hc Hw]. split.
        { split; [done|]. destruct hi as [[|h]|]; cbn in *; try done. lia. }
        exists w, r. repeat split; [done|lia| |by rewrite Nat.add_succ_r in Hk].
        destruct hi as [[|h]|]; cbn in *; try done; lia.
Qed.

Lemma run_bol (p : re.pattern) (s : string) :
  re.run (re.Bol :: p) 0 s = re.run p 0 s.
Proof. done. Qed.

Lemma run_lit (c : ascii) (p : re.pattern) (pos : nat) (s : string) :
  re.run (re.Lit c :: p) pos s = true ↔ ∃ r, s = String c r ∧ re.run p (S pos) r = true.
Proof.
  cbn [re.run]. destruct s as [|c' s]; [by split; [|intros (? & ? & ?)]|].
  rewrite andb_true_iff, Ascii.eqb_eq. split.
  - intros [-> Hr]. eauto.
  - intros (r & [= -> ->] & Hr). done.
Qed.

Lemma run_rep (cls : ascii → bool) (lo : nat) (hi : option nat) (p : re.pattern)
    (pos : nat) (s : string) :
  re.run (re.Rep cls lo hi :: p) pos s = true ↔
  ∃ w r, s = w +:+ r ∧ Shape.all cls w = true ∧
         lo ≤ String.length w ∧ re.within hi (String.length w) ∧
         re.run p (pos + String.length w) r = true.
Proof. apply rep_spec. Qed.

Lemma run_eol (pos : nat) (s : string) :
  re.run [re.Eol] pos s = true ↔ re.at_eol s = true.
Proof. cbn. by rewrite andb_true_r. Qed.

Lemma at_eol_spec (s : string) :
  re.at_eol s = true ↔ s = "" ∨ s = newline.
Proof.
  unfold newline. destruct s as [|c [|c' s]]; cbn.
  - split; [by left|done].
  - rewrite Ascii.eqb_eq. split; [intros ->; by right|by intros [|[= ->]]].
  - split; [done|by intros [|]].
Qed.

Lemma digits_spec (lo hi : nat) (w : string) :
  Shape.digits lo hi w = true ↔
  Shape.all re.digit w = true ∧ lo ≤ String.length w ∧ String.length w ≤ hi.
Proof.
  unfold Shape.digits. rewrite !andb_true_iff, !Nat.leb_le. tauto.
Qed.

(** *** Splitting and joining *)

Lemma split_on_cons (sep : ascii) (s : string) :
  ∃ w ws, Shape.split_on sep s = w :: ws.
Proof.
  destruct s as [|c s]; cbn; [eauto|].
  destruct (Ascii.eqb c sep); [eauto|]. destruct (Shape.split_on sep s); eauto.
Qed.

Lemma join_split_on (sep : ascii) (s : string) :
  Shape.join sep (Shape.split_on sep s) = s.
Proof.
  induction s as [|c s IH]; [done|]. cbn [Shape.split_on].
  destruct (Ascii.eqb_spec c sep) as [->|Hne].
  - destruct (split_on_cons sep s) as (w & ws & Hs). rewrite Hs in *.
    cbn [Shape.join]. cbn in IH. simpl. by rewrite IH.
  - destruct (Shape.split_on sep s) as [|w [|w' ws]]; simpl in *; by rewrite <-IH.
Qed.

Lemma split_on_none (cls : ascii → bool) (sep : ascii) (w : string) :
  cls sep = false → Shape.all cls w = true → Shape.split_on sep w = [w].
Proof.
  intros Hsep. induction w as [|c w IH]; [done|]. cbn.
  intros [Hc Hw]%andb_true_iff. rewrite (IH Hw).
  destruct (Ascii.eqb_spec c sep) as [->|Hne]; [congruence|done].
Qed.

Lemma split_on_app (cls : ascii → bool) (sep : ascii) (w r : string) :
  cls sep = false → Shape.all cls w = true →
  Shape.split_on sep (w +:+ String sep r) = w :: Shape.split_on sep r.
Proof.
  intros Hsep. induction w as [|c w IH]; simpl.
  - intros _. by rewrite Ascii.eqb_refl.
  - intros [Hc Hw]%andb_true_iff. rewrite (IH Hw).
    destruct (Ascii.eqb_spec c sep) as [->|Hne]; [congruence|done].
Qed.

Lemma rsplit_none (cls : ascii → bool) (sep : ascii) (w : string) :
  cls sep = false → Shape.all cls w = true → Shape.rsplit sep w = None.
Proof.
  intros Hsep. induction w as [|c w IH]; [done|]. cbn.
  intros [Hc Hw]%andb_true_iff. rewrite (IH Hw).
  destruct (Ascii.eqb_spec c sep) as [->|Hne]; [congruence|done].
Qed.

Lemma rsplit_app (cls : ascii → bool) (sep : ascii) (a b : string) :
  cls sep = false → Shape.all cls b = true →
  Shape.rsplit sep (a +:+ String sep b) = Some (a, b).
Proof.
  intros Hsep Hb. induction a as [|c a IH]; simpl.
  - by rewrite (rsplit_none cls sep b), Ascii.eqb_refl.
  - by rewrite IH.
Qed.

Lemma rsplit_some (sep : ascii) (s a b : string) :
  Shape.rsplit sep s = Some (a, b) → s = a +:+ String sep b.
Proof.
  revert a. induction s as [|c s IH]; intros a; [done|]. cbn.
  destruct (Shape.rsplit sep s) as [[a' b']|].
  - intros [= <- <-]. simpl. by rewrite (IH a').
  - destruct (Ascii.eqb_spec c sep) as [->|Hne]; [|done]. by intros [= <- <-].
Qed.

(** *** Dropping the final newline *)

Lemma chomp_spec (s : string) :
  ∃ tl, s = Shape.chomp s +:+ tl ∧ re.at_eol tl = true.
Proof.
  induction s as [|c s (tl & IH & Htl)]; [by exists ""|].
  destruct s as [|c' s].
  - cbn. destruct (Ascii.eqb_spec c re.LF) as [->|Hne]; [by exists newline|by exists ""].
  - exists tl. split; [|done]. cbn [Shape.chomp] in *. simpl. by rewrite <-IH.
Qed.

Lemma chomp_newline (x : string) : Shape.chomp (x +:+ newline) = x.
Proof.
  induction x as [|c x IH]; [done|]. simpl.
  destruct (x +:+ newline) eqn:E; [by destruct x|]. by rewrite IH.
Qed.

Lemma chomp_app_eol (x tl : string) :
  Shape.chomp x = x → re.at_eol tl = true → Shape.chomp (x +:+ tl) = x.
Proof.
  intros Hx [->| ->]%at_eol_spec; [by rewrite str_app_nil_r|apply chomp_newline].
Qed.

Lemma chomp_all (cls : ascii → bool) (w : string) :
  cls re.LF = false → Shape.all cls w = true → Shape.chomp w = w.
Proof.
  intros Hlf. induction w as [|c w IH]; [done|]. cbn.
  intros [Hc Hw]%andb_true_iff. rewrite (IH Hw). destruct w; [|done].
  destruct (Ascii.eqb_spec c re.LF) as [->|Hne]; [congruence|done].
Qed.

Lemma chomp_app_fixed (p w : string) :
  1 ≤ String.length w → Shape.chomp w = w → Shape.chomp (p +:+ w) = p +:+ w.
Proof.
  intros Hlen Hw. induction p as [|c p IH]; [done|]. simpl.
  destruct (p +:+ w) eqn:E; [|by rewrite IH].
  apply (f_equal String.length) in E. rewrite str_length_app in E. cbn in E. lia.
Qed.

(** Bring nested appends to the right. *)
Ltac str_norm := repeat (progress (simpl; rewrite ?str_app_assoc)).

(** *** Phone numbers *)

Lemma validate_phone_spec (s : string) :
  UserIdentity.__validate_phone s = true ↔
  ∃ d1 d2 d3 d4 tl,
    s = "+" +:+ d1 +:+ "-" +:+ d2 +:+ "-" +:+ d3 +:+ "-" +:+ d4 +:+ tl ∧
    Shape.digits 1 3 d1 = true ∧ Shape.digits 2 3 d2 = true ∧
    Shape.digits 3 4 d3 = true ∧ Shape.digits 4 5 d4 = true ∧
    re.at_eol tl = true.
Proof.
  unfold UserIdentity.__validate_phone, re.match_, UserIdentity.phone_pattern.
  rewrite run_bol, run_lit. setoid_rewrite run_rep. setoid_rewrite run_lit.
  setoid_rewrite run_rep. setoid_rewrite run_lit.
  setoid_rewrite run_rep. setoid_rewrite run_lit.
  setoid_rewrite run_rep. setoid_rewrite run_eol.
  setoid_rewrite digits_spec. cbn [re.within]. split.
  - intros (r0 & -> & d1 & r1 & -> & ? & ? & ? & r2 & -> &
            d2 & r3 & -> & ? & ? & ? & r4 & -> &
            d3 & r5 & -> & ? & ? & ? & r6 & -> &
            d4 & tl & -> & ? & ? & ? & ?).
    exists d1, d2, d3, d4, tl. done.
  - intros (d1 & d2 & d3 & d4 & tl & -> & (? & ? & ?) & (? & ? & ?) &
            (? & ? & ?) & (? & ? & ?) & ?).
    eexists. split; [reflexivity|].
    exists d1; eexists; split; [reflexivity|]. repeat (split; [done|]).
    eexists. split; [reflexivity|].
    exists d2; eexists; split; [reflexivity|]. repeat (split; [done|]).
    eexists. split; [reflexivity|].
    exists d3; eexists; split; [reflexivity|]. repeat (split; [done|]).
    eexists. split; [reflexivity|].
    exists d4, tl. done.
Qed.

Lemma phone_shape_spec (x : string) :
  Shape.phone x = true ↔
  ∃ d1 d2 d3 d4,
    x = "+" +:+ d1 +:+ "-" +:+ d2 +:+ "-" +:+ d3 +:+ "-" +:+ d4 ∧
    Shape.digits 1 3 d1 = true ∧ Shape.digits 2 3 d2 = true ∧
    Shape.digits 3 4 d3 = true ∧ Shape.digits 4 5 d4 = true.
Proof.
  split.
  - destruct x as [|c groups]; [done|]. cbn [Shape.phone].
    intros [->%Ascii.eqb_eq H]%andb_true_iff.
    pose proof (join_split_on "-" groups) as Hjoin.
    destruct (Shape.split_on "-" groups) as [|d1 [|d2 [|d3 [|d4 [|]]]]]; try done.
    apply andb_true_iff in H as [[[? ?]%andb_true_iff ?]%andb_true_iff ?].
    exists d1, d2, d3, d4. cbn [Shape.join] in Hjoin. by rewrite <-Hjoin.
  - intros (d1 & d2 & d3 & d4 & -> & H1 & H2 & H3 & H4).
    simpl. rewrite !(split_on_app re.digit), (split_on_none re.digit);
      try done; try by apply digits_spec in H1, H2, H3, H4; tauto.
    by rewrite H1, H2, H3, H4.
Qed.

(** The validator accepts exactly the phone numbers of the specified shape,
    each with or without one newline after it. *)
Lemma validate_phone_chomp (s : string) :
  UserIdentity.__validate_phone s = Shape.phone (Shape.chomp s).
Proof.
  apply eq_iff_eq_true. rewrite validate_phone_spec, phone_shape_spec. split.
  - intros (d1 & d2 & d3 & d4 & tl & -> & H1 & H2 & H3 & H4 & Htl).
    exists d1, d2, d3, d4. split; [|tauto].
    apply digits_spec in H4 as (H4 & Hlen & _).
    replace ("+" +:+ d1 +:+ "-" +:+ d2 +:+ "-" +:+ d3 +:+ "-" +:+ d4 +:+ tl)
      with (("+" +:+ d1 +:+ "-" +:+ d2 +:+ "-" +:+ d3 +:+ "-" +:+ d4) +:+ tl)
      by (by str_norm).
    apply chomp_app_eol; [|done].
    replace ("+" +:+ d1 +:+ "-" +:+ d2 +:+ "-" +:+ d3 +:+ "-" +:+ d4)
      with (("+" +:+ d1 +:+ "-" +:+ d2 +:+ "-" +:+ d3 +:+ "-") +:+ d4)
      by (by str_norm).
    apply chomp_app_fixed; [lia|]. by apply (chomp_all re.digit).
  - intros (d1 & d2 & d3 & d4 & Hs & H1 & H2 & H3 & H4).
    destruct (chomp_spec s) as (tl & Hs' & Htl). rewrite Hs in Hs'.
    exists d1, d2, d3, d4, tl. split; [|tauto].
    rewrite Hs'. by str_norm.
Qed.

(** *** Email addresses *)

Lemma all_alpha_domain (w : string) :
  Shape.all re.alpha w = true → Shape.all UserIdentity.domain_char w = true.
Proof.
  induction w as [|c w IH]; [done|]. cbn [Shape.all].
  intros [Hc Hw]%andb_true_iff. rewrite (IH Hw), andb_true_r.
  unfold UserIdentity.domain_char, re.alnum. by rewrite Hc.
Qed.

Lemma validate_email_spec (s : string) :
  UserIdentity.__validate_email s = true ↔
  ∃ loc dom tld tl,
    s = loc +:+ "@" +:+ dom +:+ "." +:+ tld +:+ tl ∧
    (Shape.all UserIdentity.local_char loc = true ∧ 1 ≤ String.length loc) ∧
    (Shape.all UserIdentity.domain_char dom = true ∧ 1 ≤ String.length dom) ∧
    (Shape.all re.alpha tld = true ∧ 2 ≤ String.length tld) ∧
    re.at_eol tl = true.
Proof.
  unfold UserIdentity.__validate_email, re.match_, UserIdentity.email_pattern.
  rewrite run_bol, run_rep. setoid_rewrite run_lit.
  setoid_rewrite run_rep. setoid_rewrite run_lit.
  setoid_rewrite run_rep. setoid_rewrite run_eol.
  cbn [re.within]. split.
  - intros (loc & r0 & -> & ? & ? & _ & r1 & -> &
            dom & r2 & -> & ? & ? & _ & r3 & -> &
            tld & tl & -> & ? & ? & _ & ?).
    exists loc, dom, tld, tl. done.
  - intros (loc & dom & tld & tl & -> & (? & ?) & (? & ?) & (? & ?) & ?).
    exists loc; eexists; split; [reflexivity|]. repeat (split; [done|]).
    eexists. split; [reflexivity|].
    exists dom; eexists; split; [reflexivity|]. repeat (split; [done|]).
    eexists. split; [reflexivity|].
    exists tld, tl. done.
Qed.

Lemma email_shape_spec (x : string) :
  Shape.email x = true ↔
  ∃ loc dom tld,
    x = loc +:+ "@" +:+ dom +:+ "." +:+ tld ∧
    (Shape.all UserIdentity.local_char loc = true ∧ 1 ≤ String.length loc) ∧
    (Shape.all UserIdentity.domain_char dom = true ∧ 1 ≤ String.length dom) ∧
    (Shape.all re.alpha tld = true ∧ 2 ≤ String.length tld).
Proof.
  unfold Shape.email. split.
  - pose proof (join_split_on "@" x) as Hjoin.
    destruct (Shape.split_on "@" x) as [|loc [|host [|]]]; try done.
    destruct (Shape.rsplit "." host) as [[dom tld]|] eqn:Hhost; [|done].
    apply rsplit_some in Hhost as ->. cbn [Shape.join] in Hjoin.
    intros H. rewrite !andb_true_iff, !Nat.leb_le in H.
    exists loc, dom, tld. split; [by rewrite <-Hjoin|tauto].
  - intros (loc & dom & tld & -> & (Hloc & ?) & (Hdom & ?) & (Htld & ?)).
    change (loc +:+ "@" +:+ dom +:+ "." +:+ tld)
      with (loc +:+ String "@" (dom +:+ String "." tld)).
    rewrite (split_on_app UserIdentity.local_char) by done.
    rewrite (split_on_none UserIdentity.domain_char);
      [|done|by rewrite all_app; cbn; rewrite Hdom, all_alpha_domain].
    rewrite (rsplit_app re.alpha) by done.
    rewrite Hloc, Hdom, Htld. rewrite !andb_true_iff, !Nat.leb_le. tauto.
Qed.

(** The validator accepts exactly the addresses of the specified shape, each
    with or without one newline after it. *)
Lemma validate_email_chomp (s : string) :
  UserIdentity.__validate_email s = Shape.email (Shape.chomp s).
Proof.
  apply eq_iff_eq_true. rewrite validate_email_spec, email_shape_spec. split.
  - intros (loc & dom & tld & tl & -> & Hloc & Hdom & [Htld Hlen] & Htl).
    exists loc, dom, tld. split; [|tauto].
    replace (loc +:+ "@" +:+ dom +:+ "." +:+ tld +:+ tl)
      with ((loc +:+ "@" +:+ dom +:+ "." +:+ tld) +:+ tl) by (by str_norm).
    apply chomp_app_eol; [|done].
    replace (loc +:+ "@" +:+ dom +:+ "." +:+ tld)
      with ((loc +:+ "@" +:+ dom +:+ ".") +:+ tld) by (by str_norm).
    apply chomp_app_fixed; [lia|]. by apply (chomp_all re.alpha).
  - intros (loc & dom & tld & Hs & Hloc & Hdom & Htld).
    destruct (chomp_spec s) as (tl & Hs' & Htl). rewrite Hs in Hs'.
    exists loc, dom, tld, tl. split; [|tauto].
    rewrite Hs'. by str_norm.
Qed.

(** A string that the validator accepts and that does not end in a newline
    has the specified shape; a string of the specified shape is accepted. *)
Lemma shape_validated (s : string) :
  (Shape.phone s = true → UserIdentity.__validate_phone s = true) ∧
  (Shape.email s = true → UserIdentity.__validate_email s = true).
Proof.
  rewrite validate_phone_chomp, validate_email_chomp, !phone_shape_spec, !email_shape_spec.
  split.
  - intros (d1 & d2 & d3 & d4 & -> & H1 & H2 & H3 & H4).
    exists d1, d2, d3, d4. split; [|tauto].
    apply digits_spec in H4 as (H4 & Hlen & _).
    replace ("+" +:+ d1 +:+ "-" +:+ d2 +:+ "-" +:+ d3 +:+ "-" +:+ d4)
      with (("+" +:+ d1 +:+ "-" +:+ d2 +:+ "-" +:+ d3 +:+ "-") +:+ d4)
      by (by str_norm).
    apply chomp_app_fixed; [lia|]. by apply (chomp_all re.digit).
  - intros (loc & dom & tld & -> & Hloc & Hdom & [Htld Hlen]).
    exists loc, dom, tld. split; [|tauto].
    replace (loc +:+ "@" +:+ dom +:+ "." +:+ tld)
      with ((loc +:+ "@" +:+ dom +:+ ".") +:+ tld) by (by str_norm).
    apply chomp_app_fixed; [lia|]. by apply (chomp_all re.alpha).
Qed.

(** *** What the validators guarantee in terms of the shapes *)

(** A candidate that has not the shape of an address, with or without a
    final newline, is answered (False, message) and changes nothing but the
    audit log. *)
Lemma update_email_not_shaped (new_email : string) (u : SecureUser.t) (c : clock) :
  Shape.email (Shape.chomp new_email) = false →
  ∃ e,
    SecureUser.update_email new_email (u, c)
    = (Return (false, "Invalid email format: " +:+ new_email),
       (SecureUser.with_audit_log (SecureUser.__audit_log u ++ [e]) u,
        Clock (readings c) (S (ticks c)))) ∧
    SecureUser.success e = false.
Proof.
  rewrite <-validate_email_chomp. intros H.
  destruct (update_email_rejected new_email u c H) as (e & ? & ? & ? & ?). eauto.
Qed.

(** An address or a phone number that has not the specified shape, with or
    without a final newline, makes the constructor raise. *)
Lemma init_not_shaped (name email phone : string) (c : clock) :
  Shape.email (Shape.chomp email) = false ∨ Shape.phone (Shape.chomp phone) = false →
  ∃ msg c', SecureUser.__init__ name email phone c = (Raise (ValueError msg), c').
Proof.
  rewrite <-validate_email_chomp, <-validate_phone_chomp.
  destruct (UserIdentity.__validate_email email) eqn:He.
  - intros [?|Hp]; [done|]. rewrite init_invalid_phone by done. eauto.
  - intros _. rewrite init_invalid_email by done. eauto.
Qed.

(** What is stored has the specified shape once a final newline is dropped. *)
Lemma stored_shaped (i : UserIdentity.t) :
  stored_validated i →
  ∃ e ph, UserIdentity._email i = Some e ∧ Shape.email (Shape.chomp e) = true ∧
          UserIdentity.__phone_number i = Some ph ∧ Shape.phone (Shape.chomp ph) = true.
Proof.
  intros [(e & He & Hve) (ph & Hph & Hvph)]. exists e, ph.
  by rewrite <-validate_email_chomp, <-validate_phone_chomp.
Qed.

(** ** Every account can be placed in a store *)

Section store_place.
Import Store.

Lemma value_closed_mono (n m : nat) (v : value) :
  n ≤ m → value_closed n v = true → value_closed m v = true.
Proof.
  intros Hnm. destruct v as [| | |r]; try done. cbn.
  intros H%bool_decide_eq_true_1. apply bool_decide_eq_true_2. lia.
Qed.

Lemma object_closed_mono (n m : nat) (o : object) :
  n ≤ m → object_closed n o = true → object_closed m o = true.
Proof.
  intros Hnm. destruct o as [items|fields]; cbn; rewrite !forallb_forall;
    intros H x Hx; eapply value_closed_mono; eauto.
Qed.

Lemma closed_alloc (o : object) (h : store) :
  closed h = true → object_closed (S (length h)) o = true →
  closed (alloc o h).2 = true.
Proof.
  unfold closed. cbn. intros Hh Ho.
  rewrite forallb_app, length_app, Nat.add_1_r. cbn. rewrite Ho, andb_true_r.
  rewrite forallb_forall in *. intros x Hx.
  eapply object_closed_mono; [|by apply Hh]. lia.
Qed.

Lemma details_closed (n : nat) (kvs : list (string * SecureUser.detail)) :
  object_closed n (Dict (prod_map id value_of_detail <$> kvs)) = true.
Proof.
  cbn. induction kvs as [|[k d] kvs IH]; [done|]. cbn. rewrite IH.
  by destruct d.
Qed.

Lemma alloc_entry_closed (e : SecureUser.entry) (h : store) :
  closed h = true →
  ∃ ext, (alloc_entry e h).2 = h ++ ext ∧
         closed (alloc_entry e h).2 = true ∧
         (alloc_entry e h).1 < length (alloc_entry e h).2.
Proof.
  intros Hh. unfold alloc_entry, alloc_details.
  destruct (SecureUser.details e) as [kvs|]; cbn [alloc fst snd].
  - eexists. split; [by rewrite <-app_assoc|]. split.
    + apply (closed_alloc _ (h ++ [_])).
      * apply closed_alloc; [done|apply details_closed].
      * cbn. rewrite length_app. cbn. apply andb_true_iff. split; [|done].
        apply bool_decide_eq_true_2. lia.
    + rewrite !length_app. cbn. lia.
  - eexists. split; [done|]. split; [by apply closed_alloc|].
    rewrite length_app. cbn. lia.
Qed.

Lemma alloc_entries_closed (es : list SecureUser.entry) (h : store) :
  closed h = true →
  ∃ ext, (alloc_entries es h).2 = h ++ ext ∧
         closed (alloc_entries es h).2 = true ∧
         forallb (value_closed (length (alloc_entries es h).2)) (alloc_entries es h).1
         = true.
Proof.
  revert h. induction es as [|e es IH]; intros h Hh.
  - exists []. by rewrite app_nil_r.
  - cbn [alloc_entries].
    destruct (alloc_entry_closed e h Hh) as (ext1 & Hext1 & Hc1 & Hr).
    destruct (alloc_entry e h) as [r h1]. cbn [fst snd] in *.
    destruct (IH h1 Hc1) as (ext2 & Hext2 & Hc2 & Hvs).
    destruct (alloc_entries es h1) as [vs h2]. cbn [fst snd] in *.
    exists (ext1 ++ ext2). split; [by rewrite Hext2, Hext1, <-app_assoc|].
    split; [done|]. cbn. rewrite Hvs, andb_true_r.
    apply bool_decide_eq_true_2. rewrite Hext2, length_app. lia.
Qed.

(** Placed in a closed store, an account satisfies what the lemmas on the
    accessors ask of the store. *)
Lemma place_valid (u : SecureUser.t) (h : store) :
  closed h = true →
  closed (place u h).2 = true ∧
  is_list (place u h).2 (permissions_at (place u h).1) = true ∧
  is_list (place u h).2 (audit_log_at (place u h).1) = true.
Proof.
  intros Hh. unfold place. cbn [alloc fst snd].
  set (ps := List (VStr <$> AccountAccess.__permissions (SecureUser.__access u))).
  assert (Hc1 : closed (h ++ [ps]) = true).
  { apply (closed_alloc ps h Hh). subst ps. cbn.
    induction (AccountAccess.__permissions (SecureUser.__access u)); by cbn. }
  destruct (alloc_entries_closed (SecureUser.__audit_log u) _ Hc1)
    as (ext & Hext & Hc2 & Hvs).
  destruct (alloc_entries (SecureUser.__audit_log u) (h ++ [ps])) as [vs h2].
  cbn [fst snd] in *. split; [|split].
  - apply (closed_alloc (List vs) h2 Hc2). cbn.
    rewrite forallb_forall in *. intros x Hx.
    eapply value_closed_mono; [|by apply Hvs]. lia.
  - unfold is_list. rewrite Hext, <-!app_assoc. cbn.
    by rewrite list_lookup_middle.
  - unfold is_list. by rewrite list_lookup_middle.
Qed.

Lemma place_permissions_strings (u : SecureUser.t) (h : store) :
  is_str_list (place u h).2 (permissions_at (place u h).1) = true.
Proof.
  unfold place. cbn [alloc fst snd].
  set (ps := VStr <$> AccountAccess.__permissions (SecureUser.__access u)).
  assert (Hext : ∃ ext, (alloc_entries (SecureUser.__audit_log u) (h ++ [List ps])).2
                        = (h ++ [List ps]) ++ ext).
  { generalize (h ++ [List ps]). induction (SecureUser.__audit_log u) as [|e es IH];
      intros g; [exists []; by rewrite app_nil_r|].
    cbn [alloc_entries]. destruct (alloc_entry e g) as [r g1] eqn:He.
    assert (Hg1 : ∃ ext1, g1 = g ++ ext1).
    { unfold alloc_entry, alloc_details in He.
      destruct (SecureUser.details e); cbn [alloc fst snd] in He;
        injection He as _ <-; [rewrite <-app_assoc|]; by eexists. }
    destruct Hg1 as [ext1 ->]. destruct (IH (g ++ ext1)) as [ext2 Hext2].
    destruct (alloc_entries es (g ++ ext1)) as [vs g2]. cbn [snd] in *.
    exists (ext1 ++ ext2). by rewrite Hext2, <-app_assoc. }
  destruct Hext as [ext Hext].
  destruct (alloc_entries (SecureUser.__audit_log u) (h ++ [List ps])) as [vs h2].
  cbn [fst snd permissions_at] in *. unfold is_str_list.
  rewrite Hext, <-!app_assoc. cbn. rewrite list_lookup_middle by done.
  subst ps. clear Hext.
  induction (AccountAccess.__permissions (SecureUser.__access u)); by cbn.
Qed.

Lemma deref_detail (fuel : nat) (h : store) (d : SecureUser.detail) :
  deref fuel h (value_of_detail d) = encode_detail d.
Proof. by destruct d, fuel. Qed.

Lemma deref_str (fuel : nat) (h : store) (s : string) :
  deref fuel h (VStr s) = PStr s.
Proof. by destruct fuel. Qed.

Lemma deref_bool (fuel : nat) (h : store) (b : bool) :
  deref fuel h (VBool b) = PBool b.
Proof. by destruct fuel. Qed.

Lemma alloc_entry_reads (e : SecureUser.entry) (h : store) (fuel : nat) :
  deref (2 + fuel) (alloc_entry e h).2 (VRef (alloc_entry e h).1) = encode_entry e.
Proof.
  unfold alloc_entry, alloc_details, encode_entry.
  destruct (SecureUser.details e) as [kvs|]; cbn [alloc fst snd].
  - cbn [deref plus]. rewrite list_lookup_middle by done. cbn [fmap list_fmap app].
    cbn [prod_map fst snd id].
    rewrite lookup_app_l by (rewrite length_app; cbn; lia).
    rewrite list_lookup_middle by done. do 9 f_equal.
    rewrite <-list_fmap_compose. f_equal. apply list_fmap_ext. intros i [k d] _. cbn.
    by rewrite deref_detail.
  - cbn [deref plus]. rewrite list_lookup_middle by done. by cbn.
Qed.

Lemma alloc_entries_reads (es : list SecureUser.entry) (h : store) (fuel : nat) :
  closed h = true →
  deref (2 + fuel) (alloc_entries es h).2 <$> (alloc_entries es h).1
  = encode_entry <$> es.
Proof.
  revert h. induction es as [|e es IH]; intros h Hh; [done|].
  cbn [alloc_entries].
  destruct (alloc_entry_closed e h Hh) as (ext1 & Hext1 & Hc1 & Hr).
  pose proof (alloc_entry_reads e h fuel) as Hread.
  destruct (alloc_entry e h) as [r h1]. cbn [fst snd] in *.
  destruct (alloc_entries_closed es h1 Hc1) as (ext2 & Hext2 & _ & _).
  specialize (IH h1 Hc1).
  destruct (alloc_entries es h1) as [vs h2]. cbn [fst snd] in *.
  cbn [fmap list_fmap]. f_equal; [|done].
  rewrite <-Hread. apply deref_frame; [done| |by apply bool_decide_eq_true_2].
  intros a Ha. rewrite Hext2. by apply lookup_app_l.
Qed.

(** The store accessors return what the accessors of [SecureUser] return:
    for an account placed in a closed store, the new list reads as the
    granted permissions, respectively as the audit log, of the account. *)
Lemma accessors_refine (u : SecureUser.t) (h : store) (c : clock) (fuel : nat) :
  closed h = true →
  (∃ l h1,
     get_permissions (place u h).1 (place u h).2 = Some (l, h1) ∧
     SecureUser.get_permissions (u, c) = (Return (granted u), (u, c)) ∧
     deref (1 + fuel) h1 (VRef l) = PList (PStr <$> granted u)) ∧
  (∃ l h1,
     get_audit_log (place u h).1 (place u h).2 = Some (l, h1) ∧
     SecureUser.get_audit_log (u, c) = (Return (SecureUser.__audit_log u), (u, c)) ∧
     deref (3 + fuel) h1 (VRef l) = PList (encode_entry <$> SecureUser.__audit_log u)).
Proof.
  intros Hh. unfold place, get_permissions, get_audit_log, list_copy, granted.
  cbn [alloc fst snd].
  set (ps := List (VStr <$> AccountAccess.__permissions (SecureUser.__access u))).
  assert (Hc1 : closed (h ++ [ps]) = true).
  { apply (closed_alloc ps h Hh). subst ps. cbn.
    induction (AccountAccess.__permissions (SecureUser.__access u)); by cbn. }
  destruct (alloc_entries_closed (SecureUser.__audit_log u) _ Hc1)
    as (ext & Hext & Hc2 & Hvs).
  pose proof (alloc_entries_reads (SecureUser.__audit_log u) _ fuel Hc1) as Hread.
  destruct (alloc_entries (SecureUser.__audit_log u) (h ++ [ps])) as [vs h2].
  cbn [fst snd permissions_at audit_log_at] in *. split.
  - assert (Hp : (h2 ++ [List vs]) !! length h = Some ps).
    { rewrite Hext, <-!app_assoc. by apply list_lookup_middle. }
    rewrite Hp. subst ps. eexists _, _. split; [done|].
    split; [by destruct u as [i [ps hist] log]|].
    cbn [deref plus]. rewrite list_lookup_middle by done. f_equal.
    rewrite <-list_fmap_compose. apply list_fmap_ext. intros i s _. cbn.
    apply deref_str.
  - rewrite list_lookup_middle by done. eexists _, _. split; [done|].
    split; [by destruct u as [i [ps' hist] log]|].
    change (3 + fuel) with (S (2 + fuel)). cbn [deref].
    rewrite list_lookup_middle by done. f_equal. rewrite <-Hread.
    apply list_fmap_ext. intros i v Hv. apply deref_frame; [done| |].
    + intros a Ha. rewrite <-app_assoc. by apply lookup_app_l.
    + rewrite forallb_forall in Hvs. apply Hvs, list_elem_of_In.
      by eapply list_elem_of_lookup_2.
Qed.

End store_place.

(** ** The scenarios of the specification *)

(** Granting TRANSFER fails before verification and succeeds after it. *)
Example scenario_verification :
  ∃ σ1 σ2 σ3 σ4,
    SecureUser.grant_permission "TRANSFER" (alice, Clock str_of_nat 5)
    = (Return (false, "Cannot grant 'TRANSFER' - user must be VERIFIED"), σ1) ∧
    SecureUser.request_verification σ1 = (Return true, σ2) ∧
    state_of σ2.1 = "PENDING" ∧
    SecureUser.verify_identity σ2 = (Return true, σ3) ∧
    state_of σ3.1 = "VERIFIED" ∧
    SecureUser.grant_permission "TRANSFER" σ3
    = (Return (true, "Permission granted: TRANSFER"), σ4) ∧
    granted σ4.1 = ["TRANSFER"].
Proof.
  eexists _, _, _, _. split; [vm_compute; reflexivity|].
  split; [vm_compute; reflexivity|]. split; [reflexivity|].
  split; [vm_compute; reflexivity|]. split; [reflexivity|].
  split; [vm_compute; reflexivity|]. reflexivity.
Qed.

Example scenario_update_email :
  ∃ u' c',
    SecureUser.update_email "not-an-email" (alice, Clock str_of_nat 5)
    = (Return (false, "Invalid email format: not-an-email"), (u', c')) ∧
    email_of u' = Some "alice@example.com" ∧
    SecureUser.success <$> SecureUser.__audit_log u' = [true; false].
Proof. eexists _, _. split; [vm_compute; reflexivity|]. split; reflexivity. Qed.

Example scenario_revoke :
  ∃ σ',
    SecureUser.revoke_permission "WITHDRAW" (alice, Clock str_of_nat 5)
    = (Return (false, "Permission not found: WITHDRAW"), σ').
Proof. eexists. vm_compute. reflexivity. Qed.

(** * Further properties of the three classes *)

#[local] Arguments String.append : simpl never.
#[local] Hint Unfold SecureUser.get_full_report username_of phone_of : py.

(** ** Granting and revoking *)

(** X1.  [grant_permission] succeeds exactly when the permission is allowed,
    not yet granted and, if it is restricted, the status is VERIFIED.  On
    success the permission is appended to the granted list; otherwise the
    list is as before.  The verification status is never changed. *)
Theorem grant_permission_decided (u : SecureUser.t) (c : clock) (p : string) :
  ∃ b msg u' c',
    SecureUser.grant_permission p (u, c) = (Return (b, msg), (u', c')) ∧
    (b = true ↔
     p ∈ AccountAccess.ALLOWED_PERMISSIONS ∧ (p ∉ granted u) ∧
     (p ∈ AccountAccess.RESTRICTED_PERMISSIONS → state_of u = "VERIFIED")) ∧
    granted u' = (if b then granted u ++ [p] else granted u) ∧
    state_of u' = state_of u.
Proof.
  destruct u as [[name email phone status shist] [ps hist] log]. py_step.
  case_bool_decide as Ha; cbn.
  2:{ eexists _, _, _, _. split; [reflexivity|]. split; [|done].
      split; [done|]. intros (? & _). done. }
  case_bool_decide as Hdup; cbn.
  { eexists _, _, _, _. split; [reflexivity|]. split; [|done].
    split; [done|]. intros (_ & ? & _). done. }
  case_bool_decide as Hr; cbn.
  - destruct (String.eqb_spec status "VERIFIED") as [->|Hne]; cbn;
      eexists _, _, _, _; (split; [reflexivity|]); (split; [|done]).
    + by split.
    + split; [done|]. intros (_ & _ & Hv). by specialize (Hv Hr).
  - eexists _, _, _, _. split; [reflexivity|]. split; [|done].
    split; [|done]. intros _. repeat split; [done..|]. by intros ?.
Qed.

(** X2.  Revoking a permission that is not granted fails with
    "Permission not found: p" and leaves the granted list and the
    verification status as they are. *)
Theorem revoke_absent_permission (u : SecureUser.t) (c : clock) (p : string) :
  p ∉ granted u →
  ∃ u' c',
    SecureUser.revoke_permission p (u, c)
    = (Return (false, "Permission not found: " +:+ p), (u', c')) ∧
    granted u' = granted u ∧ state_of u' = state_of u.
Proof.
  intros Hp. destruct u as [[name email phone status shist] [ps hist] log].
  py_step. rewrite bool_decide_eq_false_2 by done. cbn. eauto.
Qed.

Lemma revoke_absent_permission_witness :
  ("WITHDRAW" ∉ granted alice) ∧
  ∃ u' c',
    SecureUser.revoke_permission "WITHDRAW" (alice, Clock str_of_nat 5)
    = (Return (false, "Permission not found: WITHDRAW"), (u', c')) ∧
    granted u' = granted alice ∧ state_of u' = state_of alice.
Proof.
  assert (H : "WITHDRAW" ∉ granted alice) by apply not_elem_of_nil.
  split; [exact H|].
  exact (revoke_absent_permission alice (Clock str_of_nat 5) "WITHDRAW" H).
Defined.

Lemma remove_first_snoc (p : string) (l : list string) :
  p ∉ l → remove_first p (l ++ [p]) = Some l.
Proof.
  induction l as [|x l IH]; intros Hp; cbn.
  - by rewrite bool_decide_eq_true_2.
  - apply not_elem_of_cons in Hp as [Hne Hp].
    rewrite bool_decide_eq_false_2 by done. by rewrite IH.
Qed.

(** X3.  A grant that succeeds is undone by revoking the same permission:
    the revocation succeeds and the granted list is exactly what it was
    before the grant. *)
Theorem grant_then_revoke (u u1 : SecureUser.t) (c c1 : clock) (p msg : string) :
  SecureUser.grant_permission p (u, c) = (Return (true, msg), (u1, c1)) →
  ∃ u2 c2,
    SecureUser.revoke_permission p (u1, c1)
    = (Return (true, "Permission revoked: " +:+ p), (u2, c2)) ∧
    granted u2 = granted u.
Proof.
  destruct u as [[name email phone status shist] [ps hist] log]. py_step.
  case_bool_decide as Ha; cbn; [|done].
  case_bool_decide as Hdup; cbn; [done|].
  destruct (bool_decide (p ∈ AccountAccess.RESTRICTED_PERMISSIONS)
            && negb (String.eqb status "VERIFIED")); cbn; [done|].
  intros [= <- <- <-]. cbn.
  rewrite bool_decide_eq_true_2 by (apply elem_of_app; right; apply list_elem_of_here).
  cbn. rewrite (remove_first_snoc p ps Hdup). cbn. eauto.
Qed.

Lemma grant_then_revoke_witness :
  ∃ u1 c1,
    SecureUser.grant_permission "DEPOSIT" (alice, Clock str_of_nat 5)
    = (Return (true, "Permission granted: DEPOSIT"), (u1, c1)) ∧
    ∃ u2 c2,
      SecureUser.revoke_permission "DEPOSIT" (u1, c1)
      = (Return (true, "Permission revoked: DEPOSIT"), (u2, c2)) ∧
      granted u2 = granted alice.
Proof.
  eexists _, _.
  assert (H : SecureUser.grant_permission "DEPOSIT" (alice, Clock str_of_nat 5)
              = (Return (true, "Permission granted: DEPOSIT"),
                 ((SecureUser.grant_permission "DEPOSIT" (alice, Clock str_of_nat 5)).2.1,
                  (SecureUser.grant_permission "DEPOSIT" (alice, Clock str_of_nat 5)).2.2)))
    by (vm_compute; reflexivity).
  split; [exact H|].
  exact (grant_then_revoke alice _ (Clock str_of_nat 5) _ "DEPOSIT" _ H).
Defined.

(** ** What a sequence of calls keeps *)

(** All the ways a call on an account can go. *)
Ltac exec_cases σ o :=
  let name := fresh "name" in let email := fresh "email" in
  let phone := fresh "phone" in let status := fresh "status" in
  let shist := fresh "shist" in let ps := fresh "ps" in
  let hist := fresh "hist" in let log := fresh "log" in
  let c := fresh "c" in let p := fresh "p" in let e := fresh "e" in
  destruct σ as [[[name email phone status shist] [ps hist] log] c];
  destruct o as [p|p| | |e]; cbn [Ops.exec Ops.tag]; py_step;
  [ case_bool_decide; cbn;
    [ case_bool_decide; cbn;
      [|destruct (bool_decide (p ∈ AccountAccess.RESTRICTED_PERMISSIONS)
                  && negb (String.eqb status "VERIFIED")) eqn:?; cbn] |]
  | let Hin := fresh "Hin" in let ps' := fresh "ps'" in let Hps' := fresh "Hps'" in
    case_bool_decide as Hin; cbn;
    [destruct (remove_first_elem p ps Hin) as [ps' Hps']; rewrite Hps'; cbn|]
  | destruct (String.eqb_spec status "UNVERIFIED") as [->|?]; cbn
  | destruct (String.eqb_spec status "PENDING") as [->|?]; cbn
  | destruct (UserIdentity.__validate_email e) eqn:?; cbn ].

Lemma exec_frame (σ : SecureUser.t * clock) (o : Ops.op) :
  username_of (Ops.exec σ o).1 = username_of σ.1 ∧
  phone_of (Ops.exec σ o).1 = phone_of σ.1.
Proof. exec_cases σ o; done. Qed.

Lemma exec_audit (σ : SecureUser.t * clock) (o : Ops.op) :
  ∃ e,
    SecureUser.__audit_log (Ops.exec σ o).1 = SecureUser.__audit_log σ.1 ++ [e] ∧
    SecureUser.action e = Ops.tag o ∧
    SecureUser.user e = username_of σ.1 ∧
    SecureUser.verification_status e = state_of (Ops.exec σ o).1.
Proof. exec_cases σ o; by eexists. Qed.

Lemma exec_status (σ : SecureUser.t * clock) (o : Ops.op) :
  state_of (Ops.exec σ o).1 = state_of σ.1 ∨
  state_of σ.1 = "UNVERIFIED" ∧ state_of (Ops.exec σ o).1 = "PENDING" ∨
  state_of σ.1 = "PENDING" ∧ state_of (Ops.exec σ o).1 = "VERIFIED".
Proof. exec_cases σ o; auto. Qed.

Lemma exec_restricted (σ : SecureUser.t * clock) (o : Ops.op) :
  (∀ q, q ∈ granted σ.1 → q ∈ AccountAccess.RESTRICTED_PERMISSIONS →
        state_of σ.1 = "VERIFIED") →
  ∀ q, q ∈ granted (Ops.exec σ o).1 → q ∈ AccountAccess.RESTRICTED_PERMISSIONS →
       state_of (Ops.exec σ o).1 = "VERIFIED".
Proof.
  exec_cases σ o; intros Hinv q Hq Hr; try by eapply Hinv.
  - apply elem_of_app in Hq as [Hq| ->%list_elem_of_singleton]; [by eapply Hinv|].
    rewrite (bool_decide_eq_true_2 _ Hr) in *. cbn in *.
    by destruct (String.eqb_spec status "VERIFIED").
  - eapply Hinv; [|done]. by eapply remove_first_sub.
  - by specialize (Hinv q Hq Hr).
  - done.
Qed.

Lemma exec_status_name (σ : SecureUser.t * clock) (o : Ops.op) :
  state_of σ.1 ∈ ["UNVERIFIED"; "PENDING"; "VERIFIED"] →
  state_of (Ops.exec σ o).1 ∈ ["UNVERIFIED"; "PENDING"; "VERIFIED"].
Proof.
  intros H. destruct (exec_status σ o) as [->|[[_ ->]|[_ ->]]]; [done|..].
  - apply list_elem_of_further, list_elem_of_here.
  - do 2 apply list_elem_of_further. apply list_elem_of_here.
Qed.

Lemma exec_all_cons (o : Ops.op) (os : list Ops.op) (σ : SecureUser.t * clock) :
  Ops.exec_all (o :: os) σ = Ops.exec_all os (Ops.exec σ o).
Proof. done. Qed.

(** X4.  No sequence of calls changes the user name or the phone number of
    an account. *)
Theorem username_and_phone_never_change (σ : SecureUser.t * clock) (os : list Ops.op) :
  username_of (Ops.exec_all os σ).1 = username_of σ.1 ∧
  phone_of (Ops.exec_all os σ).1 = phone_of σ.1.
Proof.
  revert σ. induction os as [|o os IH]; intros σ; [done|]. rewrite exec_all_cons.
  destruct (IH (Ops.exec σ o)) as [-> ->]. apply exec_frame.
Qed.

Lemma exec_all_audit (σ : SecureUser.t * clock) (os : list Ops.op) :
  ∃ l,
    SecureUser.__audit_log (Ops.exec_all os σ).1 = SecureUser.__audit_log σ.1 ++ l ∧
    SecureUser.action <$> l = Ops.tag <$> os ∧
    Forall (λ e, SecureUser.user e = username_of σ.1) l.
Proof.
  revert σ. induction os as [|o os IH]; intros σ.
  - exists []. by rewrite app_nil_r.
  - rewrite exec_all_cons. destruct (IH (Ops.exec σ o)) as (l & Hl & Htags & Huser).
    destruct (exec_audit σ o) as (e & He & Htag & Hu & _).
    exists (e :: l). rewrite Hl, He, <-app_assoc. split; [done|].
    split; [cbn; by rewrite Htag, Htags|].
    constructor; [done|]. destruct (exec_frame σ o) as [Hname _].
    by rewrite Hname in Huser.
Qed.

(** X5.  The audit log is a chronological record of the calls: a sequence of
    calls appends one entry per call, in order, each under the action of its
    call and under the user name of the account, and leaves the entries that
    were there untouched. *)
Theorem audit_log_records_calls (σ : SecureUser.t * clock) (os : list Ops.op) :
  ∃ l,
    SecureUser.__audit_log (Ops.exec_all os σ).1 = SecureUser.__audit_log σ.1 ++ l ∧
    SecureUser.action <$> l = Ops.tag <$> os ∧
    Forall (λ e, SecureUser.user e = username_of σ.1) l.
Proof. apply exec_all_audit. Qed.

Lemma rank_status (σ : SecureUser.t * clock) (o : Ops.op) :
  Ops.rank (state_of σ.1) ≤ Ops.rank (state_of (Ops.exec σ o).1).
Proof.
  destruct (exec_status σ o) as [->|[[-> ->]|[-> ->]]]; [done|cbn; lia..].
Qed.

(** X6.  The verification status never moves backward along
    UNVERIFIED -> PENDING -> VERIFIED, whatever is called and in whatever
    order; in particular an account that is VERIFIED stays VERIFIED. *)
Theorem status_never_moves_backward (σ : SecureUser.t * clock) (os : list Ops.op) :
  Ops.rank (state_of σ.1) ≤ Ops.rank (state_of (Ops.exec_all os σ).1) ∧
  (state_of σ.1 = "VERIFIED" → state_of (Ops.exec_all os σ).1 = "VERIFIED").
Proof.
  revert σ. induction os as [|o os IH]; intros σ; [done|]. rewrite exec_all_cons.
  destruct (IH (Ops.exec σ o)) as [Hrank Hfinal]. split.
  - pose proof (rank_status σ o). lia.
  - intros Hv. apply Hfinal.
    destruct (exec_status σ o) as [->|[[H _]|[H _]]]; [done|congruence..].
Qed.

Lemma init_state (name email phone : string) (c c0 : clock) (u0 : SecureUser.t) :
  SecureUser.__init__ name email phone c = (Return u0, c0) →
  u0 = SecureUser.Make
         (UserIdentity.Make name (Some email) (Some phone) "UNVERIFIED"
            (UserIdentity.__state_history (SecureUser._identity u0)))
         (AccountAccess.Make []
            (AccountAccess.__permission_history (SecureUser.__access u0)))
         [SecureUser.Entry (readings c (4 + ticks c)) "USER_CREATED"
            ("SecureUser created for " +:+ name) true name "UNVERIFIED" None] ∧
  UserIdentity.__validate_email email = true ∧
  UserIdentity.__validate_phone phone = true ∧
  (UserIdentity.action <$> UserIdentity.__state_history (SecureUser._identity u0))
  = ["EMAIL_CHANGED"; "PHONE_SET"; "INITIALIZED"] ∧
  (UserIdentity.status <$> UserIdentity.__state_history (SecureUser._identity u0))
  = ["UNVERIFIED"; "UNVERIFIED"; "UNVERIFIED"] ∧
  (AccountAccess.action <$> AccountAccess.__permission_history (SecureUser.__access u0))
  = ["INITIALIZED"] ∧
  c0 = Clock (readings c) (5 + ticks c).
Proof.
  destruct (UserIdentity.__validate_email email) eqn:He.
  2:{ rewrite init_invalid_email by done. done. }
  destruct (UserIdentity.__validate_phone phone) eqn:Hp.
  2:{ rewrite init_invalid_phone by done. done. }
  unfold SecureUser.__init__. py_step. rewrite He. cbn. rewrite Hp. cbn.
  by intros [= <- <-].
Qed.

Lemma reach_restricted (name email phone : string) (c c0 : clock) (u0 : SecureUser.t)
    (os : list Ops.op) :
  SecureUser.__init__ name email phone c = (Return u0, c0) →
  state_of (Ops.exec_all os (u0, c0)).1 ∈ ["UNVERIFIED"; "PENDING"; "VERIFIED"] ∧
  ∀ q, q ∈ granted (Ops.exec_all os (u0, c0)).1 →
       q ∈ AccountAccess.RESTRICTED_PERMISSIONS →
       state_of (Ops.exec_all os (u0, c0)).1 = "VERIFIED".
Proof.
  intros (Hu0 & _)%init_state.
  assert (Hstart : state_of (u0, c0).1 ∈ ["UNVERIFIED"; "PENDING"; "VERIFIED"] ∧
                   ∀ q, q ∈ granted (u0, c0).1 →
                        q ∈ AccountAccess.RESTRICTED_PERMISSIONS →
                        state_of (u0, c0).1 = "VERIFIED").
  { rewrite Hu0. split; [apply list_elem_of_here|]. intros q Hq.
    by apply elem_of_nil in Hq. }
  revert Hstart. generalize (u0, c0). clear.
  induction os as [|o os IH]; intros σ [Hs Hr]; [done|]. rewrite exec_all_cons. apply IH.
  split; [by apply exec_status_name|by apply exec_restricted].
Qed.

(** X7.  In every state that an account can reach after its construction,
    the verification status is UNVERIFIED, PENDING or VERIFIED, and a
    restricted permission is held only if the status is VERIFIED. *)
Theorem restricted_held_only_when_verified
    (name email phone : string) (c c0 : clock) (u0 : SecureUser.t) (os : list Ops.op) :
  SecureUser.__init__ name email phone c = (Return u0, c0) →
  state_of (Ops.exec_all os (u0, c0)).1 ∈ ["UNVERIFIED"; "PENDING"; "VERIFIED"] ∧
  ∀ q, q ∈ granted (Ops.exec_all os (u0, c0)).1 →
       q ∈ AccountAccess.RESTRICTED_PERMISSIONS →
       state_of (Ops.exec_all os (u0, c0)).1 = "VERIFIED".
Proof. apply reach_restricted. Qed.

Lemma restricted_held_only_when_verified_witness :
  SecureUser.__init__ "alice" "alice@example.com" "+1-555-111-2222" epoch
  = (Return alice, Clock str_of_nat 5) ∧
  state_of (Ops.exec_all [Ops.RequestVerification; Ops.VerifyIdentity; Ops.Grant "TRANSFER"]
              (alice, Clock str_of_nat 5)).1 ∈ ["UNVERIFIED"; "PENDING"; "VERIFIED"] ∧
  ∀ q, q ∈ granted (Ops.exec_all
                      [Ops.RequestVerification; Ops.VerifyIdentity; Ops.Grant "TRANSFER"]
                      (alice, Clock str_of_nat 5)).1 →
       q ∈ AccountAccess.RESTRICTED_PERMISSIONS →
       state_of (Ops.exec_all
                   [Ops.RequestVerification; Ops.VerifyIdentity; Ops.Grant "TRANSFER"]
                   (alice, Clock str_of_nat 5)).1 = "VERIFIED".
Proof.
  split; [reflexivity|].
  exact (restricted_held_only_when_verified "alice" "alice@example.com" "+1-555-111-2222"
           epoch (Clock str_of_nat 5) alice
           [Ops.RequestVerification; Ops.VerifyIdentity; Ops.Grant "TRANSFER"]
           alice_constructed).
Defined.

Lemma remove_first_spec (p : string) (l l' : list string) :
  NoDup l → remove_first p l = Some l' → ∀ q, q ∈ l' ↔ q ∈ l ∧ q ≠ p.
Proof.
  revert l'. induction l as [|x l IH]; intros l' Hnd H q; [done|].
  apply NoDup_cons in Hnd as [Hx Hnd]. cbn in H. case_bool_decide as Hpx.
  - injection H as <-. subst x. rewrite elem_of_cons. split.
    + intros Hq. split; [by right|]. by intros ->.
    + by intros [[?|?] ?].
  - destruct (remove_first p l) as [l0|] eqn:E; [|done]. cbn in H.
    injection H as <-. rewrite !elem_of_cons, (IH l0 Hnd eq_refl q). split.
    + intros [->|[? ?]]; [split; [by left|congruence]|split; [by right|done]].
    + intros [[?|?] ?]; [by left|by right].
Qed.

Lemma exec_nodup (σ : SecureUser.t * clock) (o : Ops.op) :
  NoDup (granted σ.1) → NoDup (granted (Ops.exec σ o).1).
Proof.
  exec_cases σ o; intros Hnd; try done.
  - apply NoDup_app. repeat split; [done| |apply NoDup_singleton].
    by intros x Hx ->%list_elem_of_singleton.
  - by eapply remove_first_NoDup.
Qed.

Lemma reach_nodup (name email phone : string) (c c0 : clock) (u0 : SecureUser.t)
    (os : list Ops.op) :
  SecureUser.__init__ name email phone c = (Return u0, c0) →
  NoDup (granted (Ops.exec_all os (u0, c0)).1).
Proof.
  intros (Hu0 & _)%init_state.
  assert (Hstart : NoDup (granted (u0, c0).1)) by (rewrite Hu0; apply NoDup_nil_2).
  revert Hstart. generalize (u0, c0). clear.
  induction os as [|o os IH]; intros σ Hnd; [done|].
  rewrite exec_all_cons. by apply IH, exec_nodup.
Qed.

(** X8.  In every state that an account can reach, revoking a permission
    that is granted succeeds with "Permission revoked: p"; afterwards the
    permission is no longer held, and every other permission is held exactly
    if it was held before. *)
Theorem revoke_granted_permission
    (name email phone : string) (c c0 : clock) (u0 : SecureUser.t) (os : list Ops.op)
    (p : string) :
  SecureUser.__init__ name email phone c = (Return u0, c0) →
  p ∈ granted (Ops.exec_all os (u0, c0)).1 →
  ∃ u' c',
    SecureUser.revoke_permission p (Ops.exec_all os (u0, c0))
    = (Return (true, "Permission revoked: " +:+ p), (u', c')) ∧
    (∀ q, q ∈ granted u' ↔ q ∈ granted (Ops.exec_all os (u0, c0)).1 ∧ q ≠ p) ∧
    SecureUser.has_permission p (u', c') = (Return false, (u', c')).
Proof.
  intros Hinit Hp. pose proof (reach_nodup _ _ _ _ _ _ os Hinit) as Hnd.
  destruct (Ops.exec_all os (u0, c0))
    as [[[uname uemail uphone status shist] [ps hist] log] c1].
  cbn in Hp, Hnd. py_step. rewrite (bool_decide_eq_true_2 _ Hp). cbn.
  destruct (remove_first_elem p ps Hp) as [ps' Hps']. rewrite Hps'. cbn.
  pose proof (remove_first_spec p ps ps' Hnd Hps') as Hspec.
  eexists _, _. split; [reflexivity|]. split; [done|]. cbn.
  rewrite bool_decide_eq_false_2; [done|]. intros [_ ?]%Hspec. done.
Qed.

Lemma revoke_granted_permission_witness :
  SecureUser.__init__ "alice" "alice@example.com" "+1-555-111-2222" epoch
  = (Return alice, Clock str_of_nat 5) ∧
  "DEPOSIT" ∈ granted (Ops.exec_all [Ops.Grant "VIEW_BALANCE"; Ops.Grant "DEPOSIT"]
                          (alice, Clock str_of_nat 5)).1 ∧
  ∃ u' c',
    SecureUser.revoke_permission "DEPOSIT"
      (Ops.exec_all [Ops.Grant "VIEW_BALANCE"; Ops.Grant "DEPOSIT"]
         (alice, Clock str_of_nat 5))
    = (Return (true, "Permission revoked: " +:+ "DEPOSIT"), (u', c')) ∧
    (∀ q, q ∈ granted u' ↔
          q ∈ granted (Ops.exec_all [Ops.Grant "VIEW_BALANCE"; Ops.Grant "DEPOSIT"]
                         (alice, Clock str_of_nat 5)).1 ∧ q ≠ "DEPOSIT") ∧
    SecureUser.has_permission "DEPOSIT" (u', c') = (Return false, (u', c')).
Proof.
  assert (H : "DEPOSIT" ∈ granted
                (Ops.exec_all [Ops.Grant "VIEW_BALANCE"; Ops.Grant "DEPOSIT"]
                   (alice, Clock str_of_nat 5)).1).
  { vm_compute. apply list_elem_of_further, list_elem_of_here. }
  split; [reflexivity|]. split; [exact H|].
  exact (revoke_granted_permission "alice" "alice@example.com" "+1-555-111-2222"
           epoch (Clock str_of_nat 5) alice
           [Ops.Grant "VIEW_BALANCE"; Ops.Grant "DEPOSIT"] "DEPOSIT"
           alice_constructed H).
Defined.

(** ** The logs and the report *)

Lemma exec_all_snoc (os : list Ops.op) (o : Ops.op) (σ : SecureUser.t * clock) :
  Ops.exec_all (os ++ [o]) σ = Ops.exec (Ops.exec_all os σ) o.
Proof. unfold Ops.exec_all. by rewrite foldl_app. Qed.

Lemma reach_audit_last (name email phone : string) (c c0 : clock) (u0 : SecureUser.t)
    (os : list Ops.op) :
  SecureUser.__init__ name email phone c = (Return u0, c0) →
  ∃ e,
    last (SecureUser.__audit_log (Ops.exec_all os (u0, c0)).1) = Some e ∧
    SecureUser.action e = default "USER_CREATED" (last (Ops.tag <$> os)) ∧
    SecureUser.verification_status e = state_of (Ops.exec_all os (u0, c0)).1.
Proof.
  intros (Hu0 & _)%init_state.
  destruct os as [|o os _] using rev_ind.
  - rewrite Hu0. by eexists.
  - rewrite exec_all_snoc.
    destruct (exec_audit (Ops.exec_all os (u0, c0)) o) as (e & He & Htag & _ & Hs).
    exists e. rewrite He, last_snoc, fmap_app. cbn [fmap list_fmap].
    by rewrite last_snoc.
Qed.

Lemma full_report_eq (u : SecureUser.t) (c : clock) :
  SecureUser.get_full_report (u, c)
  = (Return (SecureUser.Report
               (SecureUser.StatusDict (username_of u) (email_of u) (phone_of u)
                  (state_of u) (granted u))
               (length (SecureUser.__audit_log u))
               (match SecureUser.__audit_log u with
                | [] => None
                | _ :: _ => last (SecureUser.__audit_log u)
                end)),
     (u, c)).
Proof. by destruct u as [[name email phone status shist] [ps hist] log]. Qed.



Lemma exec_state_history (σ : SecureUser.t * clock) (o : Ops.op) :
  UserIdentity.__state_history (SecureUser._identity (Ops.exec σ o).1)
  = UserIdentity.__state_history (SecureUser._identity σ.1) ∧
  state_of (Ops.exec σ o).1 = state_of σ.1
  ∨ ∃ e,
      UserIdentity.__state_history (SecureUser._identity (Ops.exec σ o).1)
      = UserIdentity.__state_history (SecureUser._identity σ.1) ++ [e] ∧
      UserIdentity.status e = state_of (Ops.exec σ o).1.
Proof. exec_cases σ o; first [by left | right; by eexists]. Qed.

(** X10.  The state history of the identity only grows, and in every state
    that an account can reach its last entry records the current
    verification status; the history starts with the three entries of the
    construction. *)
Theorem state_history_tracks_status
    (name email phone : string) (c c0 : clock) (u0 : SecureUser.t) (os : list Ops.op) :
  SecureUser.__init__ name email phone c = (Return u0, c0) →
  ∃ l e,
    UserIdentity.__state_history (SecureUser._identity (Ops.exec_all os (u0, c0)).1)
    = UserIdentity.__state_history (SecureUser._identity u0) ++ l ∧
    (UserIdentity.action <$> UserIdentity.__state_history (SecureUser._identity u0))
    = ["EMAIL_CHANGED"; "PHONE_SET"; "INITIALIZED"] ∧
    last (UserIdentity.__state_history
            (SecureUser._identity (Ops.exec_all os (u0, c0)).1)) = Some e ∧
    UserIdentity.status e = state_of (Ops.exec_all os (u0, c0)).1.
Proof.
  intros (Hu0 & _ & _ & Hactions & Hstatus & _)%init_state.
  induction os as [|o os IH] using rev_ind.
  - exists []. rewrite app_nil_r. cbn.
    destruct (UserIdentity.__state_history (SecureUser._identity u0))
      as [|e1 [|e2 [|e3 [|]]]]; try done.
    exists e3. injection Hstatus as _ _ H3. repeat split; [done|].
    by rewrite H3, Hu0.
  - destruct IH as (l & e & Hl & _ & Hlast & He). rewrite exec_all_snoc.
    destruct (exec_state_history (Ops.exec_all os (u0, c0)) o)
      as [[-> ->]|(e' & -> & He')].
    + by exists l, e.
    + exists (l ++ [e']), e'. rewrite last_snoc, Hl, <-app_assoc. done.
Qed.

Lemma state_history_tracks_status_witness :
  SecureUser.__init__ "alice" "alice@example.com" "+1-555-111-2222" epoch
  = (Return alice, Clock str_of_nat 5) ∧
  ∃ l e,
    UserIdentity.__state_history
      (SecureUser._identity
         (Ops.exec_all [Ops.RequestVerification; Ops.UpdateEmail "nobody"]
            (alice, Clock str_of_nat 5)).1)
    = UserIdentity.__state_history (SecureUser._identity alice) ++ l ∧
    (UserIdentity.action <$> UserIdentity.__state_history (SecureUser._identity alice))
    = ["EMAIL_CHANGED"; "PHONE_SET"; "INITIALIZED"] ∧
    last (UserIdentity.__state_history
            (SecureUser._identity
               (Ops.exec_all [Ops.RequestVerification; Ops.UpdateEmail "nobody"]
                  (alice, Clock str_of_nat 5)).1)) = Some e ∧
    UserIdentity.status e
    = state_of (Ops.exec_all [Ops.RequestVerification; Ops.UpdateEmail "nobody"]
                  (alice, Clock str_of_nat 5)).1.
Proof.
  split; [reflexivity|].
  exact (state_history_tracks_status "alice" "alice@example.com" "+1-555-111-2222"
           epoch (Clock str_of_nat 5) alice
           [Ops.RequestVerification; Ops.UpdateEmail "nobody"] alice_constructed).
Defined.

Lemma calls_exec_history (σ : AccountAccess.t * clock) (k : Calls.call) :
  ∃ e,
    AccountAccess.__permission_history (Calls.exec σ k).1
    = AccountAccess.__permission_history σ.1 ++ [e] ∧
    AccountAccess.current_permissions e = AccountAccess.__permissions (Calls.exec σ k).1.
Proof.
  destruct σ as [[ps hist] c], k as [p v|p|]; cbn [Calls.exec]; py_step.
  - case_bool_decide; cbn; [|by eexists].
    case_bool_decide; cbn; [by eexists|].
    destruct (bool_decide (p ∈ AccountAccess.RESTRICTED_PERMISSIONS) && negb v); cbn;
      by eexists.
  - case_bool_decide as Hin; cbn; [|by eexists].
    destruct (remove_first_elem p ps Hin) as [ps' ->]. cbn. by eexists.
  - by eexists.
Qed.

(** X11.  Every call of [add_permission], [remove_permission] or
    [clear_all_permissions] adds exactly one entry to the permission
    history, whether it succeeds or not, so that after the construction and
    n calls the history has n + 1 entries; the snapshot in the last entry is
    always the current list of permissions. *)
Theorem permission_history_tracks_permissions (c : clock) (ks : list Calls.call) :
  ∃ a c' e,
    AccountAccess.__init__ c = (Return a, c') ∧
    length (AccountAccess.__permission_history (Calls.exec_all ks (a, c')).1)
    = S (length ks) ∧
    last (AccountAccess.__permission_history (Calls.exec_all ks (a, c')).1) = Some e ∧
    AccountAccess.current_permissions e
    = AccountAccess.__permissions (Calls.exec_all ks (a, c')).1.
Proof.
  induction ks as [|k ks IH] using rev_ind.
  - by eexists _, _, _.
  - destruct IH as (a & c' & e & Hinit & Hlen & _). exists a, c'.
    unfold Calls.exec_all in *. rewrite foldl_app. cbn [foldl].
    destruct (calls_exec_history (foldl Calls.exec (a, c') ks) k) as (e' & He' & Hsnap).
    exists e'. rewrite He', last_snoc, !length_app, Hlen. cbn.
    split; [done|]. split; [lia|]. by split.
Qed.

(** ** Validation *)

(** X12.  [set_email] is all or nothing.  A candidate that the validator
    rejects raises ValueError("Invalid email format: ...") and leaves the
    identity, its history included, and the clock untouched.  A candidate
    that it accepts replaces the email and appends exactly one EMAIL_CHANGED
    entry that names the old and the new value; nothing else changes. *)
Theorem set_email_all_or_nothing (new_email : string) (i : UserIdentity.t) (c : clock) :
  (UserIdentity.__validate_email new_email = false →
   UserIdentity.set_email new_email (i, c)
   = (Raise (ValueError ("Invalid email format: " +:+ new_email)), (i, c))) ∧
  (UserIdentity.__validate_email new_email = true →
   UserIdentity.set_email new_email (i, c)
   = (Return tt,
      (UserIdentity.Make (UserIdentity.username i) (Some new_email)
         (UserIdentity.__phone_number i) (UserIdentity.__verification_status i)
         (UserIdentity.__state_history i ++
          [UserIdentity.Entry (readings c (ticks c)) "EMAIL_CHANGED"
             ("Email changed from " +:+ str_of_opt (UserIdentity._email i)
              +:+ " to " +:+ new_email)
             (UserIdentity.__verification_status i)]),
       Clock (readings c) (S (ticks c))))).
Proof.
  destruct i as [name email phone status hist], c as [r n].
  split; intros H; py_step; by rewrite H.
Qed.

(** X13.  Among the strings of code points 0..255, the phone validator
    accepts exactly those that consist of "+", four groups of digits 0-9
    separated by "-" with 1 to 3, 2 to 3, 3 to 4 and 4 to 5 digits, and then
    nothing or one newline.  Strings with a character beyond 255 are not
    covered: there [\d] also matches the decimal digits of other scripts, so
    the validator accepts more than this shape. *)
Theorem accepted_phone_numbers (s : string) :
  UserIdentity.__validate_phone s = true ↔
  ∃ d1 d2 d3 d4 tl,
    s = "+" +:+ d1 +:+ "-" +:+ d2 +:+ "-" +:+ d3 +:+ "-" +:+ d4 +:+ tl ∧
    Shape.digits 1 3 d1 = true ∧ Shape.digits 2 3 d2 = true ∧
    Shape.digits 3 4 d3 = true ∧ Shape.digits 4 5 d4 = true ∧
    (tl = "" ∨ tl = newline).
Proof.
  rewrite validate_phone_spec. by setoid_rewrite at_eol_spec.
Qed.

(** X14.  The email validator accepts exactly the strings that consist of a
    non-empty local part of letters, digits and [._%+-], "@", a non-empty
    domain of letters, digits, "." and "-", ".", a suffix of two or more
    letters, and then nothing or one newline. *)
Theorem accepted_email_addresses (s : string) :
  UserIdentity.__validate_email s = true ↔
  ∃ loc dom tld tl,
    s = loc +:+ "@" +:+ dom +:+ "." +:+ tld +:+ tl ∧
    (Shape.all UserIdentity.local_char loc = true ∧ 1 ≤ String.length loc) ∧
    (Shape.all UserIdentity.domain_char dom = true ∧ 1 ≤ String.length dom) ∧
    (Shape.all re.alpha tld = true ∧ 2 ≤ String.length tld) ∧
    (tl = "" ∨ tl = newline).
Proof.
  rewrite validate_email_spec. by setoid_rewrite at_eol_spec.
Qed.

(** X15.  A phone number that the validator accepts has between 14 and 20
    characters. *)
Theorem accepted_phone_length (s : string) :
  UserIdentity.__validate_phone s = true →
  14 ≤ String.length s ≤ 20.
Proof.
  intros (d1 & d2 & d3 & d4 & tl & -> & H1 & H2 & H3 & H4 & Htl)%validate_phone_spec.
  apply digits_spec in H1 as (_ & ? & ?), H2 as (_ & ? & ?),
    H3 as (_ & ? & ?), H4 as (_ & ? & ?).
  rewrite !str_length_app. change (String.length "+") with 1.
  change (String.length "-") with 1.
  assert (String.length tl ≤ 1) by (apply at_eol_spec in Htl as [->| ->]; cbn; lia).
  lia.
Qed.

Lemma accepted_phone_length_witness :
  UserIdentity.__validate_phone "+1-555-111-2222" = true ∧
  14 ≤ String.length "+1-555-111-2222" ≤ 20.
Proof.
  assert (H : UserIdentity.__validate_phone "+1-555-111-2222" = true) by reflexivity.
  split; [exact H|]. exact (accepted_phone_length "+1-555-111-2222" H).
Defined.

(** X16.  The constructor validates the email first and the phone number
    second.  A rejected email raises "Invalid email format" whatever the
    phone number is; an accepted email with a rejected phone number raises
    "Invalid phone format"; in both cases no account is returned.  When both
    are accepted the account is UNVERIFIED, holds no permission, stores the
    three attributes as given, and its audit log is the single successful
    USER_CREATED entry. *)
Theorem constructor_outcome (name email phone : string) (c : clock) :
  (UserIdentity.__validate_email email = false →
   SecureUser.__init__ name email phone c
   = (Raise (ValueError ("Invalid email format: " +:+ email)), c)) ∧
  (UserIdentity.__validate_email email = true →
   UserIdentity.__validate_phone phone = false →
   SecureUser.__init__ name email phone c
   = (Raise (ValueError ("Invalid phone format: " +:+ phone)),
      Clock (readings c) (S (ticks c)))) ∧
  (UserIdentity.__validate_email email = true →
   UserIdentity.__validate_phone phone = true →
   ∃ u,
     SecureUser.__init__ name email phone c = (Return u, Clock (readings c) (5 + ticks c)) ∧
     username_of u = name ∧ email_of u = Some email ∧ phone_of u = Some phone ∧
     state_of u = "UNVERIFIED" ∧ granted u = [] ∧
     SecureUser.__audit_log u
     = [SecureUser.Entry (readings c (4 + ticks c)) "USER_CREATED"
          ("SecureUser created for " +:+ name) true name "UNVERIFIED" None]).
Proof.
  split; [apply init_invalid_email|]. split; [apply init_invalid_phone|].
  intros He Hp. unfold SecureUser.__init__. py_step. rewrite He. cbn.
  rewrite Hp. cbn. by eexists.
Qed.

(** X17.  [update_email] succeeds exactly when the validator accepts the
    candidate.  It then stores the candidate and answers "Email updated
    successfully"; otherwise the email stays and the answer is the message
    of the validation error.  In both cases it returns, and the granted
    permissions and the verification status are as before. *)
Theorem update_email_decided (new_email : string) (u : SecureUser.t) (c : clock) :
  ∃ msg u' c',
    SecureUser.update_email new_email (u, c)
    = (Return (UserIdentity.__validate_email new_email, msg), (u', c')) ∧
    msg = (if UserIdentity.__validate_email new_email
           then "Email updated successfully"
           else "Invalid email format: " +:+ new_email) ∧
    email_of u' = (if UserIdentity.__validate_email new_email
                   then Some new_email else email_of u) ∧
    granted u' = granted u ∧ state_of u' = state_of u.
Proof.
  destruct u as [[name email phone status shist] [ps hist] log]. py_step.
  destruct (UserIdentity.__validate_email new_email); cbn; by eexists _, _, _.
Qed.

(** ** The order of the verification calls *)

Lemma exec_state_exact (σ : SecureUser.t * clock) (o : Ops.op) :
  state_of (Ops.exec σ o).1
  = match o with
    | Ops.RequestVerification =>
        if String.eqb (state_of σ.1) "UNVERIFIED" then "PENDING" else state_of σ.1
    | Ops.VerifyIdentity =>
        if String.eqb (state_of σ.1) "PENDING" then "VERIFIED" else state_of σ.1
    | _ => state_of σ.1
    end.
Proof.
  destruct σ as [[[name email phone status shist] [ps hist] log] c],
    o as [p|p| | |e]; cbn [Ops.exec]; py_step.
  - case_bool_decide; cbn; [|done]. case_bool_decide; cbn; [done|].
    by destruct (bool_decide (p ∈ AccountAccess.RESTRICTED_PERMISSIONS)
                 && negb (String.eqb status "VERIFIED")).
  - case_bool_decide as Hin; cbn; [|done].
    by destruct (remove_first_elem p ps Hin) as [ps' ->].
  - by destruct (String.eqb status "UNVERIFIED").
  - by destruct (String.eqb status "PENDING").
  - by destruct (UserIdentity.__validate_email e).
Qed.

Lemma requested_then_verified_snoc (os : list Ops.op) (o : Ops.op) :
  requested_then_verified (os ++ [o]) ↔
  requested_then_verified os ∨ o = Ops.VerifyIdentity ∧ Ops.RequestVerification ∈ os.
Proof.
  unfold requested_then_verified. split.
  - intros (os1 & os2 & os3 & H). destruct os3 as [|x os3 _] using rev_ind.
    + right.
      replace (os1 ++ Ops.RequestVerification :: os2 ++ [Ops.VerifyIdentity])
        with ((os1 ++ Ops.RequestVerification :: os2) ++ [Ops.VerifyIdentity]) in H
        by (by rewrite <-app_assoc).
      apply app_inj_tail in H as [-> ->]. split; [done|].
      apply elem_of_app. right. apply list_elem_of_here.
    + left. exists os1, os2, os3.
      replace (os1 ++ Ops.RequestVerification :: os2 ++ Ops.VerifyIdentity :: os3 ++ [x])
        with ((os1 ++ Ops.RequestVerification :: os2 ++ Ops.VerifyIdentity :: os3) ++ [x])
        in H by (rewrite <-!app_assoc; cbn; by rewrite <-!app_assoc).
      by apply app_inj_tail in H as [-> _].
  - intros [(os1 & os2 & os3 & ->)|[-> (os1 & os2 & ->)%list_elem_of_split]].
    + exists os1, os2, (os3 ++ [o]).
      rewrite <-!app_assoc. cbn. by rewrite <-!app_assoc.
    + exists os1, os2, []. by rewrite <-!app_assoc.
Qed.

Lemma reach_status_sequence (name email phone : string) (c c0 : clock)
    (u0 : SecureUser.t) (os : list Ops.op) :
  SecureUser.__init__ name email phone c = (Return u0, c0) →
  state_of (Ops.exec_all os (u0, c0)).1 ∈ ["UNVERIFIED"; "PENDING"; "VERIFIED"] ∧
  (state_of (Ops.exec_all os (u0, c0)).1 = "UNVERIFIED" ↔
   Ops.RequestVerification ∉ os) ∧
  (state_of (Ops.exec_all os (u0, c0)).1 = "VERIFIED" ↔ requested_then_verified os).
Proof.
  intros Hinit. pose proof (init_state _ _ _ _ _ _ Hinit) as (Hu0 & _).
  induction os as [|o os IH] using rev_ind.
  - rewrite Hu0. cbn. split; [apply list_elem_of_here|]. split.
    + split; [intros _; apply not_elem_of_nil|done].
    + split; [done|]. intros (os1 & os2 & os3 & H). by destruct os1.
  - destruct IH as (Hs & HU & HV). rewrite exec_all_snoc.
    split; [by apply exec_status_name|].
    rewrite exec_state_exact, requested_then_verified_snoc, not_elem_of_app,
      list_elem_of_singleton.
    destruct (decide (Ops.RequestVerification ∈ os)) as [Hin|Hin].
    + assert (Hne : state_of (Ops.exec_all os (u0, c0)).1 ≠ "UNVERIFIED")
        by (intros ?%HU; done).
      apply elem_of_cons in Hs as [?|Hs]; [done|].
      apply elem_of_cons in Hs as [Hs|Hs%list_elem_of_singleton]; rewrite Hs in *;
        destruct o; cbn; split; split; try done; try tauto;
        try (by intros [? ?]); try (intros [?|[? ?]]; by first [apply HV|done]);
        auto.
    + assert (He : state_of (Ops.exec_all os (u0, c0)).1 = "UNVERIFIED") by by apply HU.
      rewrite He in *.
      destruct o; cbn; split; split; try done; try tauto;
        try (by intros [? ?]); try (intros [?|[? ?]]; by first [apply HV|done]);
        try (intros [H|[? ?]]; [by apply HV in H|done]).
Qed.

(** X18.  The status of an account is decided by the order of the
    verification calls made since its construction, whatever other calls are
    interleaved: it is UNVERIFIED exactly as long as [request_verification]
    was never called, and VERIFIED exactly if some call of
    [request_verification] was followed, at some point, by a call of
    [verify_identity].  A [verify_identity] that comes first is of no use. *)
Theorem status_follows_call_order
    (name email phone : string) (c c0 : clock) (u0 : SecureUser.t) (os : list Ops.op) :
  SecureUser.__init__ name email phone c = (Return u0, c0) →
  (state_of (Ops.exec_all os (u0, c0)).1 = "UNVERIFIED" ↔
   Ops.RequestVerification ∉ os) ∧
  (state_of (Ops.exec_all os (u0, c0)).1 = "VERIFIED" ↔ requested_then_verified os).
Proof. intros Hinit. by apply (reach_status_sequence name email phone c). Qed.

Lemma status_follows_call_order_witness :
  SecureUser.__init__ "alice" "alice@example.com" "+1-555-111-2222" epoch
  = (Return alice, Clock str_of_nat 5) ∧
  (state_of (Ops.exec_all [Ops.VerifyIdentity; Ops.RequestVerification]
               (alice, Clock str_of_nat 5)).1 = "UNVERIFIED" ↔
   Ops.RequestVerification ∉ [Ops.VerifyIdentity; Ops.RequestVerification]) ∧
  (state_of (Ops.exec_all [Ops.VerifyIdentity; Ops.RequestVerification]
               (alice, Clock str_of_nat 5)).1 = "VERIFIED" ↔
   requested_then_verified [Ops.VerifyIdentity; Ops.RequestVerification]).
Proof.
  split; [reflexivity|].
  exact (status_follows_call_order "alice" "alice@example.com" "+1-555-111-2222"
           epoch (Clock str_of_nat 5) alice
           [Ops.VerifyIdentity; Ops.RequestVerification] alice_constructed).
Defined.

(** X19.  The lists of permissions handed out by [get_permissions] and under
    the key [permissions] of the dictionary of [identity_status] are
    independent of the account, whatever the caller does with them: changes
    of the list, objects of its own, writes to items.  The list handed out
    reads as the internal one, the internal one is left as it was, and the
    next call returns a list (and a dictionary) that reads as the first did
    when it was returned.  The items are strings, so there is nothing behind
    them to write to. *)
Theorem permission_lists_are_independent
    (self : Store.secure_user) (h : Store.store) (ms : list Store.mutation) (fuel : nat) :
  Store.is_str_list h (Store.permissions_at self) = true →
  (∃ l h1 l' h2,
     Store.get_permissions self h = Some (l, h1) ∧
     Store.deref fuel h1 (Store.VRef l)
     = Store.deref fuel h (Store.VRef (Store.permissions_at self)) ∧
     Store.get_permissions self (Store.mutate_all l ms h1) = Some (l', h2) ∧
     h2 !! Store.permissions_at self = h !! Store.permissions_at self ∧
     Store.deref fuel h2 (Store.VRef l') = Store.deref fuel h1 (Store.VRef l)) ∧
  (∃ d h1 l d' h2 l',
     Store.identity_status self h = Some (d, h1) ∧
     Store.getitem h1 d "permissions" = Some (Store.VRef l) ∧
     Store.deref fuel h1 (Store.VRef l)
     = Store.deref fuel h (Store.VRef (Store.permissions_at self)) ∧
     Store.identity_status self (Store.mutate_all l ms h1) = Some (d', h2) ∧
     Store.getitem h2 d' "permissions" = Some (Store.VRef l') ∧
     h2 !! Store.permissions_at self = h !! Store.permissions_at self ∧
     Store.deref fuel h2 (Store.VRef l') = Store.deref fuel h1 (Store.VRef l) ∧
     Store.deref fuel h2 (Store.VRef d') = Store.deref fuel h1 (Store.VRef d)).
Proof.
  intros Hp. split.
  - by apply str_list_copy_independent.
  - by apply identity_status_independent.
Qed.

Lemma permission_lists_are_independent_witness :
  Store.is_str_list grantee_at.2 (Store.permissions_at grantee_at.1) = true ∧
  ∃ l h1 l' h2,
    Store.get_permissions grantee_at.1 grantee_at.2 = Some (l, h1) ∧
    Store.deref 3 h1 (Store.VRef l)
    = Store.deref 3 grantee_at.2 (Store.VRef (Store.permissions_at grantee_at.1)) ∧
    Store.get_permissions grantee_at.1 (Store.mutate_all l tamper_items h1)
    = Some (l', h2) ∧
    h2 !! Store.permissions_at grantee_at.1
    = grantee_at.2 !! Store.permissions_at grantee_at.1 ∧
    Store.deref 3 h2 (Store.VRef l') = Store.deref 3 h1 (Store.VRef l).
Proof.
  assert (H1 : Store.is_str_list grantee_at.2 (Store.permissions_at grantee_at.1) = true)
    by reflexivity.
  split; [exact H1|].
  exact (proj1 (permission_lists_are_independent grantee_at.1 grantee_at.2
                  tamper_items 3 H1)).
Defined.

(** X20.  The list handed out by [get_audit_log] is a list of its own: it
    reads as the internal log, and whatever changes the caller makes to that
    list itself (append, pop, clear, sort, assignment to or deletion of an
    index; objects of its own), the internal log is left as it was and the
    next call returns a list that reads as the first did when it was
    returned.  Writes to the entries in the list are another matter. *)
Theorem audit_log_list_is_a_copy
    (self : Store.secure_user) (h : Store.store) (ms : list Store.mutation) (fuel : nat) :
  Store.closed h = true →
  Store.is_list h (Store.audit_log_at self) = true →
  forallb Store.list_level ms = true →
  ∃ l h1 l' h2,
    Store.get_audit_log self h = Some (l, h1) ∧
    Store.deref fuel h1 (Store.VRef l)
    = Store.deref fuel h (Store.VRef (Store.audit_log_at self)) ∧
    Store.get_audit_log self (Store.mutate_all l ms h1) = Some (l', h2) ∧
    h2 !! Store.audit_log_at self = h !! Store.audit_log_at self ∧
    Store.deref fuel h2 (Store.VRef l') = Store.deref fuel h1 (Store.VRef l).
Proof. intros Hc Ha Hms. by apply list_copy_independent. Qed.

Lemma audit_log_list_is_a_copy_witness :
  Store.closed alice_at.2 = true ∧
  Store.is_list alice_at.2 (Store.audit_log_at alice_at.1) = true ∧
  forallb Store.list_level tamper = true ∧
  ∃ l h1 l' h2,
    Store.get_audit_log alice_at.1 alice_at.2 = Some (l, h1) ∧
    Store.deref 3 h1 (Store.VRef l)
    = Store.deref 3 alice_at.2 (Store.VRef (Store.audit_log_at alice_at.1)) ∧
    Store.get_audit_log alice_at.1 (Store.mutate_all l tamper h1) = Some (l', h2) ∧
    h2 !! Store.audit_log_at alice_at.1 = alice_at.2 !! Store.audit_log_at alice_at.1 ∧
    Store.deref 3 h2 (Store.VRef l') = Store.deref 3 h1 (Store.VRef l).
Proof.
  assert (H1 : Store.closed alice_at.2 = true) by reflexivity.
  assert (H2 : Store.is_list alice_at.2 (Store.audit_log_at alice_at.1) = true)
    by reflexivity.
  assert (H3 : forallb Store.list_level tamper = true) by reflexivity.
  split; [exact H1|]. split; [exact H2|]. split; [exact H3|].
  exact (audit_log_list_is_a_copy alice_at.1 alice_at.2 tamper 3 H1 H2 H3).
Defined.
